(** * The Todo request handlers and the Prisma client handle

    A shallow embedding of
    - the route [/api/todos]        (handlers [GET] and [POST]),
    - the route [/api/todos/[id]]   (handlers [PATCH] and [DELETE]),
    - the module [@/lib/prisma]     (the process-wide client handle),
    together with the parts of the JavaScript runtime the handlers call
    ([String.prototype.trim], [parseInt], [isNaN], [typeof], truthiness,
    object destructuring, [try]/[catch]). *)

From Stdlib Require Import PrimFloat.
From stdpp Require Import gmap list sorting strings pretty.

Open Scope Z_scope.

(** ** JavaScript strings *)

(** A JavaScript string is a sequence of UTF-16 code units. *)
Abbreviation jsstring := (list N).

(** [lit s] is the JavaScript string of an ASCII literal. *)
Fixpoint lit (s : string) : jsstring :=
  match s with
  | EmptyString => []
  | String a s' => Ascii.N_of_ascii a :: lit s'
  end.

(** ECMAScript [WhiteSpace] and [LineTerminator] code points: what
    [trim] strips and what [parseInt] skips. *)
Definition is_white_space (c : N) : bool :=
  ((9 <=? c) && (c <=? 13) (* TAB, LF, VT, FF, CR *)
   || (c =? 32)            (* SP *)
   || (c =? 160)           (* NBSP *)
   || (c =? 5760)          (* U+1680 *)
   || (8192 <=? c) && (c <=? 8202) (* U+2000 .. U+200A *)
   || (c =? 8232) || (c =? 8233)   (* LS, PS *)
   || (c =? 8239)          (* U+202F *)
   || (c =? 8287)          (* U+205F *)
   || (c =? 12288)         (* U+3000 *)
   || (c =? 65279))%N.     (* BOM *)

Fixpoint trim_start (s : jsstring) : jsstring :=
  match s with
  | c :: s' => if is_white_space c then trim_start s' else s
  | [] => []
  end.

Definition trim_end (s : jsstring) : jsstring :=
  reverse (trim_start (reverse s)).

(** [String.prototype.trim]. *)
Definition trim (s : jsstring) : jsstring := trim_end (trim_start s).

(** ** JavaScript numbers produced by [parseInt] *)

(** [parseInt] yields either [NaN] or an integer. The integer is kept as
    its mathematical value; the double that carries it at run time is
    equal to it up to 2^53, which covers every value of the 32-bit [Int]
    column the result is compared with. A longer run of digits is rounded
    to a double at run time (9007199254740993 is read as
    9007199254740992) and is not what [Num] holds here: whether the
    result is [NaN] is exact for every string, its value for safe
    integers, and a statement that reads the value off an arbitrary id
    string is made for safe integers only. *)
Inductive number : Type :=
  | NaN
  | Num (z : Z).

Definition isNaN (n : number) : bool :=
  match n with NaN => true | Num _ => false end.

(** Value of a code unit as a digit, for radix 10 and radix 16. *)
Definition digit_value (radix : Z) (c : N) : option Z :=
  let c := Z.of_N c in
  if (48 <=? c) && (c <=? 57) then Some (c - 48)
  else if (radix =? 16) && (97 <=? c) && (c <=? 102) then Some (c - 87)
  else if (radix =? 16) && (65 <=? c) && (c <=? 70) then Some (c - 55)
  else None.

(** The longest prefix of radix-[radix] digits of [s], read left to
    right with accumulator [acc]; [seen] tells whether a digit has been
    read. *)
Fixpoint parse_digits (radix : Z) (s : jsstring) (seen : bool) (acc : Z)
  : option Z :=
  match s with
  | c :: s' =>
      match digit_value radix c with
      | Some d => parse_digits radix s' true (acc * radix + d)
      | None => if seen then Some acc else None
      end
  | [] => if seen then Some acc else None
  end.

(** The string starts with code unit [c]. *)
Definition first_is (c : N) (s : jsstring) : bool :=
  match s with
  | c' :: _ => (c' =? c)%N
  | [] => false
  end.

(** The string starts with [0x] or [0X]. *)
Definition has_hex_prefix (s : jsstring) : bool :=
  match s with
  | c0 :: c1 :: _ => ((c0 =? 48) && ((c1 =? 120) || (c1 =? 88)))%N
  | _ => false
  end.

(** [parseInt(string)] with the radix left out (ECMA-262, 19.2.5):
    leading white space is skipped, one sign is read, the prefix [0x]
    or [0X] selects radix 16, and the longest run of digits is the
    result. No digit at all gives [NaN]. *)
Definition parseInt (string : jsstring) : number :=
  let str := trim_start string in
  let sign := if first_is 45 str then -1 else 1 in
  let str := if first_is 43 str || first_is 45 str then drop 1 str else str in
  let R := if has_hex_prefix str then 16 else 10 in
  let str := if has_hex_prefix str then drop 2 str else str in
  match parse_digits R str false 0 with
  | None => NaN
  | Some mathInt => Num (sign * mathInt)
  end.

(** ** JavaScript values *)

(** The values a parsed JSON body and its properties can take, plus
    [undefined] for a property that is not there. *)
#[warnings="-register-all"]
Inductive value : Type :=
  | VUndefined
  | VNull
  | VBoolean (b : bool)
  | VNumber (x : float)
  | VString (s : jsstring)
  | VArray (elements : list value)
  | VObject (properties : list (jsstring * value)).

Definition typeof (v : value) : string :=
  match v with
  | VUndefined => "undefined"
  | VNull => "object"
  | VBoolean _ => "boolean"
  | VNumber _ => "number"
  | VString _ => "string"
  | VArray _ | VObject _ => "object"
  end.

(** [ToBoolean]: what [!v] negates. *)
Definition ToBoolean (v : value) : bool :=
  match v with
  | VUndefined | VNull => false
  | VBoolean b => b
  | VNumber x => negb (PrimFloat.is_zero x || PrimFloat.is_nan x)
  | VString s => match s with [] => false | _ :: _ => true end
  | VArray _ | VObject _ => true
  end.

(** Own property [key] of a parsed JSON object. *)
Fixpoint get_property (key : jsstring) (properties : list (jsstring * value))
  : value :=
  match properties with
  | (k, v) :: rest => if bool_decide (k = key) then v else get_property key rest
  | [] => VUndefined
  end.

(** ** Exceptions, the store and the handler monad *)

Inductive exn : Type :=
  | SyntaxError
  | TypeError
  | PrismaClientError (code : string).

(** Modelled from the spec: the [Todo] model of [prisma/schema.prisma] is
    not among the sources. A record has an auto-incremented integer
    [id] (the primary key, here the key of the table), a [title], a
    [completed] flag that defaults to false, [createdAt] set once at
    creation and [updatedAt] refreshed on every update. Timestamps are
    milliseconds. *)
Record row : Type := mkRow {
  title : jsstring;
  completed : bool;
  createdAt : Z;
  updatedAt : Z
}.

Record Todo : Type := mkTodo {
  Todo_id : Z;
  columns : row
}.

(** A call on [prisma.todo]. *)
Inductive query : Type :=
  | QFindMany
  | QCreate (data_title : value)
  | QUpdate (where_id : number) (data_completed : value)
  | QDelete (where_id : number).

(** Everything a handler can change: the table and its auto-increment
    counter, the calls issued on the store so far (latest first) and
    the lines written with [console.error] (latest first). *)
Record world : Type := mkWorld {
  table : gmap Z row;
  autoIncrement : Z;
  queries : list query;
  console : list (string * exn)
}.

(** What a handler call finds outside the request: the clock reading
    the store uses for timestamps, and whether the store answers this
    call at all (connection failure, timeout). *)
Record env : Type := mkEnv {
  now : Z;
  store_up : bool
}.

Inductive completion (A : Type) : Type :=
  | Normal (a : A)
  | Throw (e : exn).
Arguments Normal {A} a.
Arguments Throw {A} e.

Definition M (A : Type) : Type := world → completion A * world.

#[global] Instance M_ret : MRet M := λ A a w, (Normal a, w).

#[global] Instance M_bind : MBind M := λ A B f m w,
  match m w with
  | (Normal a, w') => f a w'
  | (Throw e, w') => (Throw e, w')
  end.

Definition throw {A} (e : exn) : M A := λ w, (Throw e, w).

(** [try { body } catch (error) { handler error }] *)
Definition try_catch {A} (body : M A) (handler : exn → M A) : M A := λ w,
  match body w with
  | (Normal a, w') => (Normal a, w')
  | (Throw e, w') => handler e w'
  end.

Definition with_table (t : gmap Z row) (w : world) : world :=
  mkWorld t (autoIncrement w) (queries w) (console w).

Definition with_autoIncrement (n : Z) (w : world) : world :=
  mkWorld (table w) n (queries w) (console w).

Definition with_query (q : query) (w : world) : world :=
  mkWorld (table w) (autoIncrement w) (q :: queries w) (console w).

Definition with_console (message : string) (error : exn) (w : world) : world :=
  mkWorld (table w) (autoIncrement w) (queries w) ((message, error) :: console w).

Definition get_table : M (gmap Z row) := λ w, (Normal (table w), w).

Definition set_table (t : gmap Z row) : M unit := λ w,
  (Normal tt, with_table t w).

Definition next_autoIncrement : M Z := λ w,
  (Normal (autoIncrement w), with_autoIncrement (autoIncrement w + 1) w).

Definition console_error (message : string) (error : exn) : M unit := λ w,
  (Normal tt, with_console message error w).

(** Every call on the store is recorded, then fails as a whole when the
    store does not answer. *)
Definition store_call (e : env) (q : query) : M unit := λ w,
  if store_up e then (Normal tt, with_query q w)
  else (Throw (PrismaClientError "P1001"), with_query q w).

(** *** The store: [prisma.todo] *)

(** [orderBy: { createdAt: 'desc' }]: [a] may precede [b]. *)
Definition createdAt_desc (a b : Todo) : Prop :=
  createdAt (columns b) ≤ createdAt (columns a).

#[global] Instance createdAt_desc_dec a b : Decision (createdAt_desc a b).
Proof. unfold createdAt_desc. apply _. Defined.

Definition all_todos (t : gmap Z row) : list Todo :=
  (λ kv, mkTodo kv.1 kv.2) <$> map_to_list t.

(** Modelled from the spec: [prisma.todo.findMany] with the ordering
    above returns every record, newest first. (Records created in the
    same millisecond come in whatever order the sort leaves them; no
    statement below depends on it.) *)
Definition prisma_todo_findMany (e : env) : M (list Todo) :=
  store_call e QFindMany;;
  t ← get_table;
  mret (merge_sort createdAt_desc (all_todos t)).

(** Modelled from the spec: [prisma.todo.create] inserts a record under
    the next auto-increment id with [completed = false] and both
    timestamps set to the current time; a primary key that is already
    taken is a unique-constraint failure. *)
Definition prisma_todo_create (e : env) (data_title : value) : M Todo :=
  store_call e (QCreate data_title);;
  match data_title with
  | VString s =>
      i ← next_autoIncrement;
      t ← get_table;
      match t !! i with
      | Some _ => throw (PrismaClientError "P2002")
      | None =>
          let r := mkRow s false (now e) (now e) in
          set_table (<[i := r]> t);;
          mret (mkTodo i r)
      end
  | _ => throw (PrismaClientError "validation")
  end.

(** Modelled from the spec: [prisma.todo.update] sets [completed] on the
    one record with the given id and refreshes its [updatedAt]; it
    throws when no record has that id. *)
Definition prisma_todo_update (e : env) (where_id : number) (data_completed : value)
  : M Todo :=
  store_call e (QUpdate where_id data_completed);;
  match where_id, data_completed with
  | Num i, VBoolean c =>
      t ← get_table;
      match t !! i with
      | Some r =>
          let r' := mkRow (title r) c (createdAt r) (now e) in
          set_table (<[i := r']> t);;
          mret (mkTodo i r')
      | None => throw (PrismaClientError "P2025")
      end
  | _, _ => throw (PrismaClientError "validation")
  end.

(** Modelled from the spec: [prisma.todo.delete] removes the record with
    the given id; as the note above [DELETE] in the source says, it
    throws when no record has that id. *)
Definition prisma_todo_delete (e : env) (where_id : number) : M Todo :=
  store_call e (QDelete where_id);;
  match where_id with
  | Num i =>
      t ← get_table;
      match t !! i with
      | Some r => set_table (delete i t);; mret (mkTodo i r)
      | None => throw (PrismaClientError "P2025")
      end
  | NaN => throw (PrismaClientError "validation")
  end.

(** ** Requests and responses *)

(** A request is its body as [request.json()] reads it: [None] when the
    body is not valid JSON. *)
Record Request : Type := mkRequest {
  request_body : option value
}.

(** [await request.json()] *)
Definition Request_json (request : Request) : M value :=
  match request_body request with
  | Some v => mret v
  | None => throw SyntaxError
  end.

(** Property [key] of a body that is neither [null] nor [undefined]:
    the own property for an object, and [undefined] for the other
    values ([title] and [completed], the only keys read, are on no
    prototype). *)
Definition read_property (key : jsstring) (body : value) : value :=
  match body with
  | VObject properties => get_property key properties
  | _ => VUndefined
  end.

(** [const { key } = body]: a [TypeError] on [null] and [undefined]. *)
Definition destructure (key : jsstring) (body : value) : M value :=
  match body with
  | VNull | VUndefined => throw TypeError
  | _ => mret (read_property key body)
  end.

(** [title.trim()] *)
Definition String_trim (v : value) : M value :=
  match v with
  | VString s => mret (VString (trim s))
  | _ => throw TypeError
  end.

Inductive json : Type :=
  | JTodo (todo : Todo)
  | JTodos (todos : list Todo)
  | JSuccess (success : bool)
  | JError (error : string).

Record NextResponse : Type := mkResponse {
  body : json;
  status : Z
}.

(** [NextResponse.json(data, { status })]; the status defaults to 200. *)
Definition NextResponse_json (data : json) (init : option Z) : NextResponse :=
  mkResponse data (default 200 init).

(** ** The handlers *)

(** [GET /api/todos] *)
Definition GET (e : env) : M NextResponse :=
  try_catch
    (todos ← prisma_todo_findMany e;
     mret (NextResponse_json (JTodos todos) None))
    (λ error,
       console_error "Error fetching todos:" error;;
       mret (NextResponse_json (JError "Failed to fetch todos") (Some 500))).

(** [POST /api/todos] *)
Definition POST (request : Request) (e : env) : M NextResponse :=
  try_catch
    (body ← Request_json request;
     title ← destructure (lit "title") body;
     if negb (ToBoolean title) || negb (String.eqb (typeof title) "string") then
       mret (NextResponse_json (JError "Title is required") (Some 400))
     else
       trimmed ← String_trim title;
       todo ← prisma_todo_create e trimmed;
       mret (NextResponse_json (JTodo todo) (Some 201)))
    (λ error,
       console_error "Error creating todo:" error;;
       mret (NextResponse_json (JError "Failed to create todo") (Some 500))).

(** [PATCH /api/todos/[id]]; [id] is the route parameter. *)
Definition PATCH (request : Request) (id : jsstring) (e : env) : M NextResponse :=
  try_catch
    (let todoId := parseInt id in
     if isNaN todoId then
       mret (NextResponse_json (JError "Invalid todo ID") (Some 400))
     else
       body ← Request_json request;
       completed ← destructure (lit "completed") body;
       if negb (String.eqb (typeof completed) "boolean") then
         mret (NextResponse_json (JError "Completed must be a boolean") (Some 400))
       else
         todo ← prisma_todo_update e todoId completed;
         mret (NextResponse_json (JTodo todo) None))
    (λ error,
       console_error "Error updating todo:" error;;
       mret (NextResponse_json (JError "Failed to update todo") (Some 500))).

(** [DELETE /api/todos/[id]]; [id] is the route parameter. *)
Definition DELETE (id : jsstring) (e : env) : M NextResponse :=
  try_catch
    (let todoId := parseInt id in
     if isNaN todoId then
       mret (NextResponse_json (JError "Invalid todo ID") (Some 400))
     else
       prisma_todo_delete e todoId;;
       mret (NextResponse_json (JSuccess true) None))
    (λ error,
       console_error "Error deleting todo:" error;;
       mret (NextResponse_json (JError "Failed to delete todo") (Some 500))).

(** A handler call, and a run of calls one after the other, each with
    the environment it meets. *)
Inductive call : Type :=
  | CallGET
  | CallPOST (request : Request)
  | CallPATCH (request : Request) (id : jsstring)
  | CallDELETE (id : jsstring).

Definition handle (c : call) (e : env) : M NextResponse :=
  match c with
  | CallGET => GET e
  | CallPOST request => POST request e
  | CallPATCH request id => PATCH request id e
  | CallDELETE id => DELETE id e
  end.

Fixpoint run_calls (cs : list (call * env)) (w : world) : world :=
  match cs with
  | [] => w
  | (c, e) :: cs' => run_calls cs' (handle c e w).2
  end.

(** The message and the log label of each handler's [catch] branch. *)
Definition failure_message (c : call) : string :=
  match c with
  | CallGET => "Failed to fetch todos"
  | CallPOST _ => "Failed to create todo"
  | CallPATCH _ _ => "Failed to update todo"
  | CallDELETE _ => "Failed to delete todo"
  end.

(** The auto-increment counter is ahead of every id in the table. *)
Definition fresh_ids (w : world) : Prop :=
  ∀ i, is_Some (table w !! i) → i < autoIncrement w.

(** The response shapes of the HTTP surface: a Todo with 200 or 201, the
    list with 200, the success flag with 200, an [{error}] object with
    400 or 500. *)
Definition well_formed (r : NextResponse) : Prop :=
  match body r with
  | JTodo _ => status r = 200 ∨ status r = 201
  | JTodos _ => status r = 200
  | JSuccess success => success = true ∧ status r = 200
  | JError _ => status r = 400 ∨ status r = 500
  end.

(** The requests the page sends: [JSON.stringify({ title })] and
    [JSON.stringify({ completed })]; and a store with no record yet. *)
Definition title_request (title : value) : Request :=
  mkRequest (Some (VObject [(lit "title", title)])).

Definition completed_request (completed : value) : Request :=
  mkRequest (Some (VObject [(lit "completed", completed)])).

Definition empty_world : world := mkWorld ∅ 1 [] [].

(** *** Words of the specification about ids *)

Definition is_decimal_digit (c : N) : bool := ((48 <=? c) && (c <=? 57))%N.

Fixpoint digit_prefix (s : jsstring) : jsstring :=
  match s with
  | c :: s' => if is_decimal_digit c then c :: digit_prefix s' else []
  | [] => []
  end.

(** "The leading integer prefix" of an id string: its longest prefix of
    decimal digits, read in base ten. *)
Definition leading_integer (s : jsstring) : Z :=
  foldl (λ acc c, acc * 10 + (Z.of_N c - 48)) 0 (digit_prefix s).

Definition begins_with_digit (s : jsstring) : bool :=
  match s with
  | c :: _ => is_decimal_digit c
  | [] => false
  end.

(** ** The client handle: the module [@/lib/prisma] *)

(** A process, as far as the module can see it: [process.env.NODE_ENV],
    the property [globalThis.prisma], how many [PrismaClient] instances
    have been constructed (an instance is named by its rank), and the
    module registry's entry for [lib/prisma]: the exported binding when
    the module has been evaluated and not invalidated since. *)
Record process : Type := mkProcess {
  NODE_ENV : option string;
  globalThis_prisma : option nat;
  constructed : nat;
  registry : option nat
}.

Definition start (mode : option string) : process :=
  mkProcess mode None 0%nat None.

(** [new PrismaClient()] *)
Definition new_PrismaClient (p : process) : nat * process :=
  (constructed p,
   mkProcess (NODE_ENV p) (globalThis_prisma p) (S (constructed p)) (registry p)).

(** The module body:
    [export const prisma = globalForPrisma.prisma ?? new PrismaClient()]
    [if (process.env.NODE_ENV !== 'production') globalForPrisma.prisma = prisma] *)
Definition evaluate_module (p : process) : nat * process :=
  let '(prisma, p) :=
    match globalThis_prisma p with
    | Some client => (client, p)
    | None => new_PrismaClient p
    end in
  if negb (bool_decide (NODE_ENV p = Some "production"))
  then (prisma, mkProcess (NODE_ENV p) (Some prisma) (constructed p) (registry p))
  else (prisma, p).

(** [import { prisma } from '@/lib/prisma']: the module is evaluated on
    the first import and its binding is served from the registry after
    that. *)
Definition import_prisma (p : process) : nat * process :=
  match registry p with
  | Some prisma => (prisma, p)
  | None =>
      let '(prisma, p) := evaluate_module p in
      (prisma, mkProcess (NODE_ENV p) (globalThis_prisma p) (constructed p) (Some prisma))
  end.

(** A hot reload of the development server drops the evaluated module;
    [globalThis] survives. *)
Definition hot_reload (p : process) : process :=
  mkProcess (NODE_ENV p) (globalThis_prisma p) (constructed p) None.

Inductive event : Type :=
  | Import
  | HotReload.

#[global] Instance event_eq_dec : EqDecision event.
Proof. solve_decision. Defined.

(** The handles the imports of a run obtain, in order. *)
Fixpoint accesses (evs : list event) (p : process) : list nat * process :=
  match evs with
  | [] => ([], p)
  | Import :: evs' =>
      let '(prisma, p) := import_prisma p in
      let '(rest, p) := accesses evs' p in
      (prisma :: rest, p)
  | HotReload :: evs' => accesses evs' (hot_reload p)
  end.

(** What holds of a process throughout a run: either nothing has been
    constructed yet, or exactly one client has, and it is the one the
    registry and [globalThis] hold; the registry holds it in production
    and [globalThis] holds it otherwise. *)
Definition one_client (p : process) : Prop :=
  (constructed p = 0%nat ∧ globalThis_prisma p = None ∧ registry p = None) ∨
  (constructed p = 1%nat ∧
   (globalThis_prisma p = None ∨ globalThis_prisma p = Some 0%nat) ∧
   (registry p = None ∨ registry p = Some 0%nat) ∧
   (NODE_ENV p = Some "production" → registry p = Some 0%nat) ∧
   (NODE_ENV p ≠ Some "production" → globalThis_prisma p = Some 0%nat)).

(** ** The page: the component [Home] that calls the handlers *)

(** [`${id}`] for an integer id: its decimal numeral, with a minus
    sign when negative (what [Number::toString] gives for the integers
    a double holds exactly). *)
Definition Number_toString (i : Z) : jsstring := lit (pretty i).

(** [Number.isSafeInteger]. *)
Definition is_safe_integer (i : Z) : Prop := - (2 ^ 53 - 1) ≤ i ≤ 2 ^ 53 - 1.

(** The state of the component: the four [useState] cells, and the
    lines it writes with [console.error] (latest first). *)
Record Home : Type := mkHome {
  todos : list Todo;
  newTodo : jsstring;
  loading : bool;
  deletingId : option Z;
  browser_console : list string
}.

Definition initial_Home : Home := mkHome [] [] false None [].

Definition setTodos (data : list Todo) (p : Home) : Home :=
  mkHome data (newTodo p) (loading p) (deletingId p) (browser_console p).

Definition setNewTodo (s : jsstring) (p : Home) : Home :=
  mkHome (todos p) s (loading p) (deletingId p) (browser_console p).

Definition setLoading (b : bool) (p : Home) : Home :=
  mkHome (todos p) (newTodo p) b (deletingId p) (browser_console p).

Definition setDeletingId (i : option Z) (p : Home) : Home :=
  mkHome (todos p) (newTodo p) (loading p) i (browser_console p).

Definition browser_error (message : string) (p : Home) : Home :=
  mkHome (todos p) (newTodo p) (loading p) (deletingId p)
    (message :: browser_console p).

(** What a [fetch] meets: whether the request gets through at all, and
    the environment of the handler that serves it. *)
Record network : Type := mkNetwork {
  online : bool;
  server : env
}.

(** [await fetch(...)]: [None] when the promise rejects (the request
    does not reach the server), the handler's response otherwise; an
    exception escaping a handler would be the framework's 500. *)
Definition fetch (n : network) (c : call) (w : world)
  : option NextResponse * world :=
  if online n then
    match handle c (server n) w with
    | (Normal res, w') => (Some res, w')
    | (Throw _, w') => (Some (mkResponse (JError "Internal Server Error") 500), w')
    end
  else (None, w).

(** [res.ok] *)
Definition ok (res : NextResponse) : bool :=
  (200 <=? status res) && (status res <=? 299).

(** [fetchTodos]: on a 2xx answer the list received replaces [todos]
    (the state is typed [Todo[]]; a 2xx answer of [GET] carries nothing
    else, so the other bodies leave the state alone). *)
Definition fetchTodos (n : network) (p : Home) (w : world) : Home * world :=
  match fetch n CallGET w with
  | (Some res, w') =>
      if ok res then
        match body res with
        | JTodos data => (setTodos data p, w')
        | _ => (p, w')
        end
      else (p, w')
  | (None, w') => (browser_error "Failed to fetch todos:" p, w')
  end.

(** [addTodo]: the form's submit handler. [n1] serves the [POST], [n2]
    the list that is fetched after it. *)
Definition addTodo (n1 n2 : network) (p : Home) (w : world) : Home * world :=
  if negb (ToBoolean (VString (trim (newTodo p)))) then (p, w)
  else
    let p := setLoading true p in
    let '(p, w) :=
      match fetch n1 (CallPOST (title_request (VString (newTodo p)))) w with
      | (Some res, w') =>
          if ok res then fetchTodos n2 (setNewTodo [] p) w' else (p, w')
      | (None, w') => (browser_error "Failed to add todo:" p, w')
      end in
    (setLoading false p, w).

(** [toggleTodo(id, completed)] *)
Definition toggleTodo (id : Z) (completed : bool) (n1 n2 : network)
  (p : Home) (w : world) : Home * world :=
  match fetch n1 (CallPATCH (completed_request (VBoolean (negb completed)))
                    (Number_toString id)) w with
  | (Some res, w') => if ok res then fetchTodos n2 p w' else (p, w')
  | (None, w') => (browser_error "Failed to toggle todo:" p, w')
  end.

(** [deleteTodo(id)]; the 300 ms the function waits before its request
    change nothing but the time at which it is sent. *)
Definition deleteTodo (id : Z) (n1 n2 : network) (p : Home) (w : world)
  : Home * world :=
  let p := setDeletingId (Some id) p in
  let '(p, w) :=
    match fetch n1 (CallDELETE (Number_toString id)) w with
    | (Some res, w') => if ok res then fetchTodos n2 p w' else (p, w')
    | (None, w') => (browser_error "Failed to delete todo:" p, w')
    end in
  (setDeletingId None p, w).

(** What the user does on the page: loading it (the effect that runs
    once on mount), typing in the input, submitting the form, ticking
    the checkbox or pressing the delete button of the [k]-th row. *)
Inductive action : Type :=
  | Mount
  | Typing (value : jsstring)
  | Submit
  | Tick (k : nat)
  | Remove (k : nat).

Definition act (a : action) (n1 n2 : network) (p : Home) (w : world)
  : Home * world :=
  match a with
  | Mount => fetchTodos n1 p w
  | Typing value => (setNewTodo value p, w)
  | Submit => addTodo n1 n2 p w
  | Tick k =>
      match todos p !! k with
      | Some todo => toggleTodo (Todo_id todo) (completed (columns todo)) n1 n2 p w
      | None => (p, w)
      end
  | Remove k =>
      match todos p !! k with
      | Some todo => deleteTodo (Todo_id todo) n1 n2 p w
      | None => (p, w)
      end
  end.

Fixpoint use_page (acts : list (action * network * network)) (p : Home) (w : world)
  : Home * world :=
  match acts with
  | [] => (p, w)
  | (a, n1, n2) :: acts' =>
      let '(p', w') := act a n1 n2 p w in use_page acts' p' w'
  end.

(** The line under the list: [todos.filter((t) => t.completed).length]. *)
Definition completed_count (l : list Todo) : nat :=
  length (filter (λ t, completed (columns t) = true) l).

(** *** Predicates on the store *)

(** A title with no white space at either end. *)
Definition no_outer_space (s : jsstring) : Prop :=
  (∀ c, head s = Some c → is_white_space c = false) ∧
  (∀ c, last s = Some c → is_white_space c = false).

(** Every record has a title that is not empty and has no white space
    at either end. *)
Definition proper_titles (t : gmap Z row) : Prop :=
  ∀ i r, t !! i = Some r → title r ≠ [] ∧ no_outer_space (title r).

(** Every record was created no later than it was last updated, and
    neither is in the future of clock reading [t]. *)
Definition timestamps_ok (t : Z) (tb : gmap Z row) : Prop :=
  ∀ i r, tb !! i = Some r → createdAt r ≤ updatedAt r ∧ updatedAt r ≤ t.

(** *** The stages of a handler call *)

(** How far a call gets before the store, read off each handler up to
    its store call: validation rejects it, or something is thrown while
    the body is read, or the call [q] is issued on the store. *)
Inductive stage : Type :=
  | Rejected (message : string)
  | Unreadable (error : exn)
  | Reaches (q : query).

Definition body_stage (request : Request) (k : value → stage) : stage :=
  match request_body request with
  | None => Unreadable SyntaxError
  | Some VNull | Some VUndefined => Unreadable TypeError
  | Some body => k body
  end.

Definition stage_of (c : call) : stage :=
  match c with
  | CallGET => Reaches QFindMany
  | CallPOST request =>
      body_stage request (λ body,
        match read_property (lit "title") body with
        | VString (c :: s) => Reaches (QCreate (VString (trim (c :: s))))
        | _ => Rejected "Title is required"
        end)
  | CallPATCH request id =>
      match parseInt id with
      | NaN => Rejected "Invalid todo ID"
      | Num i =>
          body_stage request (λ body,
            match read_property (lit "completed") body with
            | VBoolean b => Reaches (QUpdate (Num i) (VBoolean b))
            | _ => Rejected "Completed must be a boolean"
            end)
      end
  | CallDELETE id =>
      match parseInt id with
      | NaN => Rejected "Invalid todo ID"
      | Num i => Reaches (QDelete (Num i))
      end
  end.

(** What a call on [prisma.todo] resolves to. *)
Inductive result : Type :=
  | RTodos (todos : list Todo)
  | RTodo (todo : Todo).

(** The call [q] on the store. *)
Definition prisma_todo (e : env) (q : query) : M result :=
  match q with
  | QFindMany => todos ← prisma_todo_findMany e; mret (RTodos todos)
  | QCreate data_title => todo ← prisma_todo_create e data_title; mret (RTodo todo)
  | QUpdate where_id data_completed =>
      todo ← prisma_todo_update e where_id data_completed; mret (RTodo todo)
  | QDelete where_id => todo ← prisma_todo_delete e where_id; mret (RTodo todo)
  end.

(** The response each handler makes of the result of its store call. *)
Definition success (c : call) (r : result) : NextResponse :=
  match c, r with
  | CallDELETE _, _ => mkResponse (JSuccess true) 200
  | CallPOST _, RTodo todo => mkResponse (JTodo todo) 201
  | CallPOST _, RTodos todos => mkResponse (JTodos todos) 201
  | _, RTodo todo => mkResponse (JTodo todo) 200
  | _, RTodos todos => mkResponse (JTodos todos) 200
  end.

(** The label under which each handler's [catch] branch logs. *)
Definition failure_label (c : call) : string :=
  match c with
  | CallGET => "Error fetching todos:"
  | CallPOST _ => "Error creating todo:"
  | CallPATCH _ _ => "Error updating todo:"
  | CallDELETE _ => "Error deleting todo:"
  end.

(** The promise of a store call settles, with a result or an error, or
    stays pending for ever. *)
Inductive promise : Type :=
  | Settles
  | Pending.

(** A handler call as its caller sees it. The handlers [await] their
    store call with no timeout: while that promise is pending the
    handler is suspended, in the [try] block, and there is no response
    ([None]). Otherwise the response is the handler's. *)
Definition respond (c : call) (e : env) (p : promise) (w : world)
  : option (NextResponse * world) :=
  match stage_of c, p with
  | Reaches _, Pending => None
  | _, _ =>
      match handle c e w with
      | (Normal res, w') => Some (res, w')
      | (Throw _, w') => Some (mkResponse (JError "Internal Server Error") 500, w')
      end
  end.

(** * Properties *)

#[local] Set Warnings "-clear-no-such-hyp".

(** ** Running the handlers *)

Ltac run_M :=
  unfold GET, POST, PATCH, DELETE, prisma_todo_findMany, prisma_todo_create,
    prisma_todo_update, prisma_todo_delete, store_call, try_catch,
    Request_json, destructure, String_trim, console_error, get_table,
    set_table, next_autoIncrement, throw, mbind, M_bind, mret, M_ret,
    NextResponse_json;
  simpl.

Lemma GET_run e w :
  GET e w =
  if store_up e then
    (Normal (mkResponse (JTodos (merge_sort createdAt_desc (all_todos (table w)))) 200),
     with_query QFindMany w)
  else
    (Normal (mkResponse (JError "Failed to fetch todos") 500),
     with_console "Error fetching todos:" (PrismaClientError "P1001")
       (with_query QFindMany w)).
Proof. run_M. by destruct (store_up e). Qed.

Lemma DELETE_run id e w :
  DELETE id e w =
  match parseInt id with
  | NaN => (Normal (mkResponse (JError "Invalid todo ID") 400), w)
  | Num i =>
      let w1 := with_query (QDelete (Num i)) w in
      let failed code :=
        (Normal (mkResponse (JError "Failed to delete todo") 500),
         with_console "Error deleting todo:" (PrismaClientError code) w1) in
      if store_up e then
        match table w !! i with
        | Some _ =>
            (Normal (mkResponse (JSuccess true) 200), with_table (delete i (table w)) w1)
        | None => failed "P2025"
        end
      else failed "P1001"
  end.
Proof.
  run_M. destruct (parseInt id) as [|i]; simpl; [done|].
  destruct (store_up e); simpl; [|done].
  by destruct (table w !! i).
Qed.

Lemma PATCH_run request id e w :
  PATCH request id e w =
  match parseInt id with
  | NaN => (Normal (mkResponse (JError "Invalid todo ID") 400), w)
  | Num i =>
      let failed error w' :=
        (Normal (mkResponse (JError "Failed to update todo") 500),
         with_console "Error updating todo:" error w') in
      match request_body request with
      | None => failed SyntaxError w
      | Some VNull | Some VUndefined => failed TypeError w
      | Some body =>
          match read_property (lit "completed") body with
          | VBoolean c =>
              let w1 := with_query (QUpdate (Num i) (VBoolean c)) w in
              if store_up e then
                match table w !! i with
                | Some r =>
                    let r' := mkRow (title r) c (createdAt r) (now e) in
                    (Normal (mkResponse (JTodo (mkTodo i r')) 200),
                     with_table (<[i := r']> (table w)) w1)
                | None => failed (PrismaClientError "P2025") w1
                end
              else failed (PrismaClientError "P1001") w1
          | _ => (Normal (mkResponse (JError "Completed must be a boolean") 400), w)
          end
      end
  end.
Proof.
  run_M. destruct (parseInt id) as [|i]; simpl; [done|].
  destruct (request_body request) as [body|]; simpl; [|done].
  destruct body; simpl; try done;
    destruct (get_property _ _); simpl; try done;
    destruct (store_up e); simpl; try done;
    by destruct (table w !! i).
Qed.

Lemma POST_run request e w :
  POST request e w =
  let failed error w' :=
    (Normal (mkResponse (JError "Failed to create todo") 500),
     with_console "Error creating todo:" error w') in
  match request_body request with
  | None => failed SyntaxError w
  | Some VNull | Some VUndefined => failed TypeError w
  | Some body =>
      match read_property (lit "title") body with
      | VString (c :: s) =>
          let t := trim (c :: s) in
          let w1 := with_query (QCreate (VString t)) w in
          if store_up e then
            let i := autoIncrement w in
            let w2 := with_autoIncrement (i + 1) w1 in
            match table w !! i with
            | Some _ => failed (PrismaClientError "P2002") w2
            | None =>
                let r := mkRow t false (now e) (now e) in
                (Normal (mkResponse (JTodo (mkTodo i r)) 201),
                 with_table (<[i := r]> (table w)) w2)
            end
          else failed (PrismaClientError "P1001") w1
      | _ => (Normal (mkResponse (JError "Title is required") 400), w)
      end
  end.
Proof.
  run_M. destruct (request_body request) as [body|]; simpl; [|done].
  destruct body; simpl; try done;
    destruct (get_property _ _) as [| |[]| |[|c s]| |]; simpl;
    rewrite ?orb_true_r; try done;
    destruct (store_up e); simpl; try done;
    by destruct (table w !! autoIncrement w).
Qed.

(** A handler call always completes normally: whatever is thrown inside
    is caught by the handler's own [catch]. *)
Lemma handle_returns c e w : ∃ resp w', handle c e w = (Normal resp, w').
Proof.
  destruct c; simpl.
  - rewrite GET_run. case_match; eauto.
  - rewrite POST_run. simpl. repeat case_match; eauto.
  - rewrite PATCH_run. simpl. repeat case_match; eauto.
  - rewrite DELETE_run. simpl. repeat case_match; eauto.
Qed.

Ltac run_handle c :=
  destruct c; simpl handle in *;
  [ rewrite GET_run in * | rewrite POST_run in *
  | rewrite PATCH_run in * | rewrite DELETE_run in * ];
  cbv zeta in *.

(** ** Validation comes first *)

(** Whether a call is answered 400 is decided by the request alone. *)
Lemma validation_decides c :
  (∃ msg, ∀ e w, handle c e w = (Normal (mkResponse (JError msg) 400), w)) ∨
  (∀ e w resp w', handle c e w = (Normal resp, w') → status resp ≠ 400).
Proof.
  destruct c as [|request|request id|id]; simpl.
  - right. intros e w resp w'. rewrite GET_run. by case_match; intros [= <- <-].
  - destruct (request_body request) as [body|] eqn:Hb.
    + destruct (read_property (lit "title") body) as [| | | |[|c s]| |] eqn:Ht.
      6: { right. intros e w resp w'. rewrite POST_run, Hb. cbv zeta.
           destruct body; try done; rewrite Ht; intros;
             repeat case_match; by simplify_eq. }
      all: destruct body; try done;
        first [ left; eexists; intros e w; rewrite POST_run, Hb; cbv zeta;
                rewrite ?Ht; reflexivity
              | right; intros e w resp w'; rewrite POST_run, Hb; cbv zeta;
                by intros [= <- <-] ].
    + right. intros e w resp w'. rewrite POST_run, Hb. by intros [= <- <-].
  - destruct (parseInt id) as [|i] eqn:Hid.
    { left. eexists. intros e w. by rewrite PATCH_run, Hid. }
    destruct (request_body request) as [body|] eqn:Hb.
    + destruct (read_property (lit "completed") body) eqn:Hc.
      3: { right. intros e w resp w'. rewrite PATCH_run, Hid, Hb. cbv zeta.
           destruct body; try done; rewrite Hc; intros;
             repeat case_match; by simplify_eq. }
      all: destruct body; try done;
        first [ left; eexists; intros e w; rewrite PATCH_run, Hid, Hb; cbv zeta;
                rewrite ?Hc; reflexivity
              | right; intros e w resp w'; rewrite PATCH_run, Hid, Hb; cbv zeta;
                by intros [= <- <-] ].
    + right. intros e w resp w'. rewrite PATCH_run, Hid, Hb. by intros [= <- <-].
  - destruct (parseInt id) as [|i] eqn:Hid.
    { left. eexists. intros e w. by rewrite DELETE_run, Hid. }
    right. intros e w resp w'. rewrite DELETE_run, Hid. cbv zeta.
    intros; repeat case_match; by simplify_eq.
Qed.

(** C6. A handler that answers 400 has left the world as it found it:
    no call was issued on the store, nothing was written or logged.
    The answer does not depend on the store either: the same request
    gets the same 400 under every environment and in every world. *)
Theorem validation_has_no_effect c e w resp w' :
  handle c e w = (Normal resp, w') →
  status resp = 400 →
  w' = w ∧ ∀ e0 w0, handle c e0 w0 = (Normal resp, w0).
Proof.
  intros Hrun Hst.
  destruct (validation_decides c) as [[msg Hmsg]|Hno].
  - rewrite Hmsg in Hrun. injection Hrun as <- <-. done.
  - by destruct (Hno _ _ _ _ Hrun).
Qed.

Lemma validation_has_no_effect_witness :
  empty_world = empty_world ∧
  ∀ e0 w0,
    handle (CallPOST (title_request (VString []))) e0 w0 =
    (Normal (mkResponse (JError "Title is required") 400), w0).
Proof.
  by apply (validation_has_no_effect
              (CallPOST (title_request (VString []))) (mkEnv 0 true) empty_world).
Defined.

(** ** Every call is answered *)

(** The store call of each handler, run by hand. *)
Lemma prisma_todo_run e q w :
  prisma_todo e q w =
  let w1 := with_query q w in
  if store_up e then
    match q with
    | QFindMany =>
        (Normal (RTodos (merge_sort createdAt_desc (all_todos (table w)))), w1)
    | QCreate (VString s) =>
        let i := autoIncrement w in
        let w2 := with_autoIncrement (i + 1) w1 in
        match table w !! i with
        | Some _ => (Throw (PrismaClientError "P2002"), w2)
        | None =>
            (Normal (RTodo (mkTodo i (mkRow s false (now e) (now e)))),
             with_table (<[i := mkRow s false (now e) (now e)]> (table w)) w2)
        end
    | QUpdate (Num i) (VBoolean c) =>
        match table w !! i with
        | Some r =>
            (Normal (RTodo (mkTodo i (mkRow (title r) c (createdAt r) (now e)))),
             with_table (<[i := mkRow (title r) c (createdAt r) (now e)]> (table w)) w1)
        | None => (Throw (PrismaClientError "P2025"), w1)
        end
    | QDelete (Num i) =>
        match table w !! i with
        | Some r => (Normal (RTodo (mkTodo i r)), with_table (delete i (table w)) w1)
        | None => (Throw (PrismaClientError "P2025"), w1)
        end
    | _ => (Throw (PrismaClientError "validation"), w1)
    end
  else (Throw (PrismaClientError "P1001"), w1).
Proof.
  unfold prisma_todo. run_M. destruct (store_up e); simpl.
  - destruct q as [|[]|[] []|[]]; simpl; try done;
      by destruct (table w !! _).
  - by destruct q.
Qed.

(** What every store call does to the world, and what it resolves to. *)
Lemma prisma_todo_effect e q w :
  queries (prisma_todo e q w).2 = q :: queries w ∧
  console (prisma_todo e q w).2 = console w ∧
  (store_up e = false → ∃ error, (prisma_todo e q w).1 = Throw error) ∧
  match (prisma_todo e q w).1 with
  | Normal (RTodos _) => q = QFindMany
  | Normal (RTodo _) => q ≠ QFindMany
  | Throw _ => True
  end.
Proof.
  rewrite prisma_todo_run. cbv zeta. destruct (store_up e); simpl.
  - destruct q as [|[]|[] []|[]]; simpl; try done;
      by destruct (table w !! _).
  - eauto.
Qed.

(** Each handler is its stage, then its store call, then the response
    made of the outcome. *)
Lemma handle_stage c e w :
  handle c e w =
  match stage_of c with
  | Rejected message => (Normal (mkResponse (JError message) 400), w)
  | Unreadable error =>
      (Normal (mkResponse (JError (failure_message c)) 500),
       with_console (failure_label c) error w)
  | Reaches q =>
      match prisma_todo e q w with
      | (Normal r, w1) => (Normal (success c r), w1)
      | (Throw error, w1) =>
          (Normal (mkResponse (JError (failure_message c)) 500),
           with_console (failure_label c) error w1)
      end
  end.
Proof.
  destruct c as [|request|request id|id]; simpl handle; unfold stage_of, body_stage.
  - rewrite GET_run, prisma_todo_run. cbv zeta. by destruct (store_up e).
  - rewrite POST_run. cbv zeta.
    destruct (request_body request) as [body|]; [|done].
    destruct body; try done;
      (destruct (read_property _ _) as [| | | |[|c s]| |]; try done);
      rewrite prisma_todo_run; cbv zeta;
      (destruct (store_up e); [|done]); by destruct (table w !! _).
  - rewrite PATCH_run. cbv zeta. destruct (parseInt id) as [|i]; [done|].
    destruct (request_body request) as [body|]; [|done].
    destruct body; try done;
      (destruct (read_property _ _); try done);
      rewrite prisma_todo_run; cbv zeta;
      (destruct (store_up e); [|done]); by destruct (table w !! _).
  - rewrite DELETE_run. cbv zeta. destruct (parseInt id) as [|i]; [done|].
    rewrite prisma_todo_run. cbv zeta.
    destruct (store_up e); [|done]. by destruct (table w !! _).
Qed.

(** There is no response exactly when the call reaches the store and
    the store call stays pending. *)
Lemma no_response_iff c e p w :
  respond c e p w = None ↔ p = Pending ∧ ∃ q, stage_of c = Reaches q.
Proof.
  unfold respond. destruct (handle_returns c e w) as (resp & w' & ->).
  destruct (stage_of c) as [| |q], p; split; try done;
    try (by intros [? [? ?]]); eauto.
Qed.

(** C7 as stated fails: a handler awaits its store call with no
    timeout, so a call whose store call never settles gets no response
    at all. [GET] on a store that stays silent is such a call. *)
Lemma pending_store_call_gets_no_response :
  ¬ (∀ c e p w, ∃ resp w', respond c e p w = Some (resp, w')).
Proof.
  intros H. destruct (H CallGET (mkEnv 0 true) Pending empty_world)
    as (resp & w' & Hrun). discriminate.
Qed.

(** C7, amended. A handler call whose store call settles, or that does
    not reach the store, gets a response, the handler's own (nothing
    escapes its [catch]), of one of the shapes of the HTTP surface, and
    at most one call is issued on the store. The response is fixed by
    the stage the call reaches: rejected by validation, it is 400 with
    the validation message and the world is as it was; the body being
    unreadable, or the store call throwing for whatever reason, it is
    the handler's generic 500 and the error is logged; the store call
    resolving, it is the success response made of the result. So 400 is
    answered for validation failures and for nothing else. *)
Theorem handler_answers c e p w :
  (p = Settles ∨ ∀ q, stage_of c ≠ Reaches q) →
  ∃ resp w',
    respond c e p w = Some (resp, w') ∧
    handle c e w = (Normal resp, w') ∧
    well_formed resp ∧
    (queries w' = queries w ∨ ∃ q, queries w' = q :: queries w) ∧
    match stage_of c with
    | Rejected message =>
        resp = mkResponse (JError message) 400 ∧ w' = w
    | Unreadable error =>
        resp = mkResponse (JError (failure_message c)) 500 ∧
        w' = with_console (failure_label c) error w
    | Reaches q =>
        match prisma_todo e q w with
        | (Normal r, w1) => resp = success c r ∧ w' = w1
        | (Throw error, w1) =>
            resp = mkResponse (JError (failure_message c)) 500 ∧
            w' = with_console (failure_label c) error w1
        end
    end ∧
    (status resp = 400 ↔ ∃ message, stage_of c = Rejected message) ∧
    (∀ line, console w' = line :: console w →
       resp = mkResponse (JError (failure_message c)) 500) ∧
    (store_up e = false → queries w' ≠ queries w →
       resp = mkResponse (JError (failure_message c)) 500).
Proof.
  intros Hp. pose proof (handle_stage c e w) as Hrun.
  assert (Hresp : ∀ resp w', handle c e w = (Normal resp, w') →
            respond c e p w = Some (resp, w')).
  { intros resp w' Hh. unfold respond. rewrite Hh.
    destruct (stage_of c) as [| |q] eqn:Hs; try done.
    destruct p; [done|]. destruct Hp as [|Hp]; [done|]. by destruct (Hp q). }
  assert (Hmsg : ∀ l (x : string * exn), l ≠ x :: l).
  { intros l x Hl. apply (f_equal length) in Hl. simpl in Hl. lia. }
  destruct (stage_of c) as [message|error|q] eqn:Hs.
  - eexists _, _. split; [by apply Hresp|]. split; [done|].
    unfold well_formed. simpl. split_and!; eauto; try done.
    + split; eauto.
    + intros line Hl. by apply Hmsg in Hl.
  - eexists _, _. split; [by apply Hresp|]. split; [done|].
    unfold well_formed. simpl. split_and!; eauto; try done.
    split; [done|]. by intros [? ?].
  - destruct (prisma_todo_effect e q w) as (Hq & Hc & Hdown & Hshape).
    destruct (prisma_todo e q w) as [[r|error] w1] eqn:Hstore; simpl in *.
    + eexists _, _. split; [by apply Hresp|]. split; [done|].
      assert (Hst : status (success c r) = 200 ∨ status (success c r) = 201).
      { destruct c, r; simpl; auto. }
      split_and!; try done.
      * unfold well_formed. unfold stage_of, body_stage in Hs.
        destruct c, r; simpl in *; auto; subst q;
          repeat case_match; simplify_eq.
      * right. by exists q.
      * split; [|by intros [? ?]]. intros H4. destruct Hst; congruence.
      * intros line Hl. rewrite Hc in Hl. by apply Hmsg in Hl.
      * intros Hd. destruct (Hdown Hd) as [? ?]. done.
    + eexists _, _. split; [by apply Hresp|]. split; [done|].
      unfold well_formed. simpl. split_and!; eauto; try done.
      split; [done|]. by intros [? ?].
Qed.

Lemma handler_answers_witness :
  respond (CallDELETE (lit "7")) (mkEnv 0 true) Settles empty_world =
  Some (mkResponse (JError "Failed to delete todo") 500,
        with_console "Error deleting todo:" (PrismaClientError "P2025")
          (with_query (QDelete (Num 7)) empty_world)).
Proof.
  destruct (handler_answers (CallDELETE (lit "7")) (mkEnv 0 true) Settles empty_world)
    as (resp & w' & Hrun & _ & _ & _ & Hstage & _); [by left|].
  rewrite Hrun. vm_compute in Hstage. by destruct Hstage as [-> ->].
Defined.

(** ** Listing *)

#[local] Instance createdAt_desc_total : Total createdAt_desc.
Proof. intros a b. unfold createdAt_desc. lia. Qed.

#[local] Instance createdAt_desc_trans : Transitive createdAt_desc.
Proof. intros a b c. unfold createdAt_desc. lia. Qed.

Lemma elem_of_all_todos (t : gmap Z row) (x : Todo) :
  x ∈ all_todos t ↔ t !! Todo_id x = Some (columns x).
Proof.
  unfold all_todos. rewrite list_elem_of_fmap. split.
  - intros [[i r] [-> Hin]]. simpl. by apply elem_of_map_to_list in Hin.
  - intros Hx. exists (Todo_id x, columns x). split; [by destruct x|].
    by apply elem_of_map_to_list.
Qed.

(** In a list sorted newest first, a record created strictly later
    than another stands before it. *)
Lemma newer_stands_before (l : list Todo) (a b : Todo) :
  StronglySorted createdAt_desc l →
  a ∈ l → b ∈ l →
  createdAt (columns a) < createdAt (columns b) →
  ∃ l1 l2 l3, l = l1 ++ b :: l2 ++ a :: l3.
Proof.
  intros Hsorted Ha Hb Hlt.
  apply list_elem_of_split in Hb as (l1 & l' & ->).
  apply elem_of_app in Ha as [Ha|Ha].
  - exfalso. apply list_elem_of_split in Ha as (k1 & k2 & ->).
    apply StronglySorted_app in Hsorted as (Hcross & _ & _).
    assert (Hab : createdAt_desc a b) by (apply Hcross; set_solver).
    unfold createdAt_desc in Hab. lia.
  - apply elem_of_cons in Ha as [->|Ha]; [lia|].
    apply list_elem_of_split in Ha as (l2 & l3 & ->). by exists l1, l2, l3.
Qed.

(** What a successful [POST] has done: the body carried a non-empty
    string under [title], and the record returned is the one inserted
    under the next id, with the trimmed title. *)
Lemma POST_created request e w todo st w' :
  POST request e w = (Normal (mkResponse (JTodo todo) st), w') →
  ∃ body s,
    request_body request = Some body ∧
    read_property (lit "title") body = VString s ∧ s ≠ [] ∧
    st = 201 ∧
    todo = mkTodo (autoIncrement w) (mkRow (trim s) false (now e) (now e)) ∧
    table w !! autoIncrement w = None ∧
    table w' = <[autoIncrement w := columns todo]> (table w) ∧
    autoIncrement w' = autoIncrement w + 1.
Proof.
  rewrite POST_run. cbv zeta. intros Hrun.
  destruct (request_body request) as [body|]; [|done].
  exists body.
  destruct (read_property (lit "title") body) as [| | | |[|c s]| |] eqn:Ht;
    try (by destruct body).
  exists (c :: s).
  destruct body; try done;
    (destruct (store_up e); [|done]);
    (destruct (table w !! autoIncrement w) eqn:Hfree; [done|]);
    injection Hrun as <- <- <-; by repeat split.
Qed.

(** C4 as stated fails: the list is ordered by [createdAt], not by the
    order of creation. When the clock the store reads is set back
    between two creations, the record created second carries the
    earlier [createdAt] and is listed after the one created first.
    (Two creations within the same millisecond carry the same
    [createdAt], and their order in the list is the store's choice.) *)
Lemma created_later_listed_later :
  ¬ (∀ requestA requestB eA eB e w a b w1 w2 todos w3,
       POST requestA eA w = (Normal (mkResponse (JTodo a) 201), w1) →
       POST requestB eB w1 = (Normal (mkResponse (JTodo b) 201), w2) →
       GET e w2 = (Normal (mkResponse (JTodos todos) 200), w3) →
       ∃ l1 l2 l3, todos = l1 ++ b :: l2 ++ a :: l3).
Proof.
  intros H.
  edestruct (H (title_request (VString (lit "A"))) (title_request (VString (lit "B")))
               (mkEnv 20 true) (mkEnv 10 true) (mkEnv 30 true) empty_world)
    as (l1 & l2 & l3 & Hl); [vm_compute; reflexivity..|].
  destruct l1 as [|x [|y l1]]; [discriminate Hl| |].
  - injection Hl as _ Hl. destruct l2; discriminate Hl.
  - injection Hl as _ _ Hl. destruct l1; discriminate Hl.
Qed.

(** Two creations at the same clock reading: here the list has the
    record created first before the one created second. *)
Example same_millisecond_creations :
  let wA := (POST (title_request (VString (lit "A"))) (mkEnv 10 true)
               (mkWorld ∅ 3 [] [])).2 in
  let wB := (POST (title_request (VString (lit "B"))) (mkEnv 10 true) wA).2 in
  (GET (mkEnv 30 true) wB).1 =
  Normal (mkResponse (JTodos [mkTodo 3 (mkRow (lit "A") false 10 10);
                              mkTodo 4 (mkRow (lit "B") false 10 10)]) 200).
Proof. vm_compute. reflexivity. Qed.

(** C4, amended. [GET] takes no input beyond the store. When the store answers,
    the response is 200 with every record of the table, each once,
    sorted by [createdAt] descending, and the table is left as it was;
    when the store does not answer, the response is the 500 error
    object and no list at all. And when a record [a] is created, then a
    record [b] at a later clock reading, the list that follows has [b]
    before [a]. *)
Theorem list_newest_first :
  (∀ e w,
     if store_up e then
       ∃ todos,
         (GET e w).1 = Normal (mkResponse (JTodos todos) 200) ∧
         table (GET e w).2 = table w ∧
         todos ≡ₚ all_todos (table w) ∧
         StronglySorted createdAt_desc todos
     else
       (GET e w).1 = Normal (mkResponse (JError "Failed to fetch todos") 500)) ∧
  (∀ requestA requestB eA eB e w a b w1 w2 todos w3,
     POST requestA eA w = (Normal (mkResponse (JTodo a) 201), w1) →
     POST requestB eB w1 = (Normal (mkResponse (JTodo b) 201), w2) →
     now eA < now eB →
     GET e w2 = (Normal (mkResponse (JTodos todos) 200), w3) →
     ∃ l1 l2 l3, todos = l1 ++ b :: l2 ++ a :: l3).
Proof.
  split.
  - intros e w. rewrite GET_run. destruct (store_up e); simpl; [|done].
    eexists. split; [done|]. split; [done|]. split.
    + apply merge_sort_Permutation.
    + apply StronglySorted_merge_sort; apply _.
  - intros requestA requestB eA eB e w a b w1 w2 todos w3 HA HB Hlt Hget.
    apply POST_created in HA as (_ & sA & _ & _ & _ & _ & -> & HfreeA & HtA & HnA).
    apply POST_created in HB as (_ & sB & _ & _ & _ & _ & -> & HfreeB & HtB & HnB).
    rewrite GET_run in Hget. destruct (store_up e); [|done].
    injection Hget as <- _. simpl in *.
    apply newer_stands_before.
    + apply StronglySorted_merge_sort; apply _.
    + rewrite merge_sort_Permutation, elem_of_all_todos, HtB, HtA. simpl.
      rewrite HnA. rewrite lookup_insert_ne by lia. by rewrite lookup_insert_eq.
    + rewrite merge_sort_Permutation, elem_of_all_todos, HtB. simpl.
      by rewrite lookup_insert_eq.
    + done.
Qed.

Lemma list_newest_first_witness :
  ∃ l1 l2 l3,
    [mkTodo 2 (mkRow (lit "B") false 20 20); mkTodo 1 (mkRow (lit "A") false 10 10)]
    = l1 ++ mkTodo 2 (mkRow (lit "B") false 20 20)
         :: l2 ++ mkTodo 1 (mkRow (lit "A") false 10 10) :: l3.
Proof.
  eapply (proj2 list_newest_first
            (title_request (VString (lit "A"))) (title_request (VString (lit "B")))
            (mkEnv 10 true) (mkEnv 20 true) (mkEnv 30 true) empty_world).
  - vm_compute. reflexivity.
  - vm_compute. reflexivity.
  - simpl. lia.
  - vm_compute. reflexivity.
Defined.

(** ** Updating *)

(** Calls other than [PATCH] leave every record that survives them as
    it was. *)
Lemma other_calls_keep_records c e w j r0 r1 :
  (∀ request id, c ≠ CallPATCH request id) →
  table w !! j = Some r0 →
  table (handle c e w).2 !! j = Some r1 →
  r1 = r0.
Proof.
  intros Hc Hj. destruct c as [|request|request id|id]; simpl handle;
    [ rewrite GET_run | rewrite POST_run | by destruct (Hc request id)
    | rewrite DELETE_run ];
    cbv zeta; repeat case_match; simpl; try congruence;
    rewrite ?lookup_insert, ?lookup_delete; case_decide; congruence.
Qed.

(** C5. [PATCH] on an existing id with a boolean [completed], the store
    answering: the response is 200 with the updated record, and the
    table afterwards is the table before with that one record replaced.
    The replacement keeps [title] and [createdAt] under the same id,
    carries the supplied [completed] and has [updatedAt] set to the
    current time; every other record is as it was, none is added or
    removed, and the auto-increment counter has not moved. No other
    handler changes the [completed] flag, or anything else, of a record
    that is still there after the call. *)
Theorem set_completed_frame :
  (∀ request id e w i r body c,
     parseInt id = Num i →
     table w !! i = Some r →
     request_body request = Some body →
     read_property (lit "completed") body = VBoolean c →
     store_up e = true →
     let r' := mkRow (title r) c (createdAt r) (now e) in
     let w' := (PATCH request id e w).2 in
     (PATCH request id e w).1 = Normal (mkResponse (JTodo (mkTodo i r')) 200) ∧
     table w' = <[i := r']> (table w) ∧
     table w' !! i = Some r' ∧
     (∀ j, j ≠ i → table w' !! j = table w !! j) ∧
     dom (table w') = dom (table w) ∧
     autoIncrement w' = autoIncrement w) ∧
  (∀ c e w j r0 r1,
     (∀ request id, c ≠ CallPATCH request id) →
     table w !! j = Some r0 →
     table (handle c e w).2 !! j = Some r1 →
     completed r1 = completed r0 ∧ r1 = r0).
Proof.
  split.
  - intros request id e w i r body c Hid Hi Hb Hc Hup r' w'.
    assert (Hrun : PATCH request id e w =
      (Normal (mkResponse (JTodo (mkTodo i r')) 200),
       with_table (<[i := r']> (table w))
         (with_query (QUpdate (Num i) (VBoolean c)) w))).
    { rewrite PATCH_run, Hid, Hb. cbv zeta.
      destruct body; try done; by rewrite Hc, Hup, Hi. }
    subst w'. rewrite Hrun. simpl. split_and!; try done.
    + apply lookup_insert_eq.
    + intros j Hj. by apply lookup_insert_ne.
    + by apply dom_insert_lookup_L.
  - intros c e w j r0 r1 Hc H0 H1.
    by rewrite (other_calls_keep_records c e w j r0 r1).
Qed.

Lemma set_completed_frame_witness :
  (PATCH (completed_request (VBoolean true)) (lit "1") (mkEnv 50 true)
     (mkWorld {[1 := mkRow (lit "a") false 10 10]} 2 [] [])).1 =
  Normal (mkResponse (JTodo (mkTodo 1 (mkRow (lit "a") true 10 50))) 200).
Proof.
  by apply (proj1 set_completed_frame
              (completed_request (VBoolean true)) (lit "1") (mkEnv 50 true)
              (mkWorld {[1 := mkRow (lit "a") false 10 10]} 2 [] [])
              1 (mkRow (lit "a") false 10 10)
              (VObject [(lit "completed", VBoolean true)]) true).
Defined.

(** ** Deleting *)

(** Once an id is below the counter and absent from the table, no call
    brings it back. *)
Lemma gone_stays_gone c e w i :
  i < autoIncrement w → table w !! i = None →
  i < autoIncrement (handle c e w).2 ∧ table (handle c e w).2 !! i = None.
Proof.
  intros Hlt Hi. run_handle c; repeat case_match; simpl; split; try done; try lia.
  - rewrite lookup_insert_ne by lia. done.
  - rewrite lookup_insert. case_decide; [congruence|done].
  - rewrite lookup_delete. by case_decide.
Qed.

Lemma gone_for_good cs w i :
  i < autoIncrement w → table w !! i = None →
  i < autoIncrement (run_calls cs w) ∧ table (run_calls cs w) !! i = None.
Proof.
  revert w. induction cs as [|[c e] cs IH]; intros w Hlt Hi; simpl; [done|].
  destruct (gone_stays_gone c e w i Hlt Hi). by apply IH.
Qed.

(** The counter stays ahead of the ids: it does so in the empty store
    and after every call. *)
Lemma fresh_ids_empty : fresh_ids empty_world.
Proof. intros i [r Hr]. unfold empty_world in Hr. simpl in Hr. by rewrite lookup_empty in Hr. Qed.

Lemma fresh_ids_handle c e w : fresh_ids w → fresh_ids (handle c e w).2.
Proof.
  unfold fresh_ids. intros Hw.
  run_handle c; repeat case_match; simplify_eq/=; intros j Hj;
    rewrite ?lookup_insert, ?lookup_delete in Hj; try case_decide; subst;
    first [ lia | apply Hw in Hj; lia | apply Hw; by eauto
          | by destruct Hj as [? [=]] ].
Qed.

Lemma fresh_ids_run cs w : fresh_ids w → fresh_ids (run_calls cs w).
Proof.
  revert w. induction cs as [|[c e] cs IH]; intros w Hw; simpl; [done|].
  by apply IH, fresh_ids_handle.
Qed.

(** [PATCH] on an id that is not in the table is answered with an error
    object, whatever the request carries. *)
Lemma PATCH_missing request id e w i :
  parseInt id = Num i → table w !! i = None →
  ∃ msg st, (PATCH request id e w).1 = Normal (mkResponse (JError msg) st) ∧
            (st = 400 ∨ st = 500).
Proof.
  intros Hid Hi. rewrite PATCH_run, Hid. cbv zeta.
  repeat case_match; simpl; try congruence; eauto.
Qed.

(** C3. [DELETE] on the id of a record, the store answering, in a store
    whose counter is ahead of its ids: the response is 200 with
    [{success: true}], and from then on, whatever calls follow, the
    table has no record under that id; a [PATCH] on the id is answered
    with an error object (the 500 of the handler when it carries
    [completed: true]), and no list returned by [GET] holds a record
    with that id. *)
Theorem delete_is_final id i e w :
  parseInt id = Num i →
  is_Some (table w !! i) →
  store_up e = true →
  fresh_ids w →
  (DELETE id e w).1 = Normal (mkResponse (JSuccess true) 200) ∧
  ∀ cs,
    let w' := run_calls cs (DELETE id e w).2 in
    table w' !! i = None ∧
    (∀ request id' e',
       parseInt id' = Num i →
       ∃ msg st, (PATCH request id' e' w').1 = Normal (mkResponse (JError msg) st) ∧
                 (st = 400 ∨ st = 500)) ∧
    (∀ id' e',
       parseInt id' = Num i →
       (PATCH (completed_request (VBoolean true)) id' e' w').1 =
       Normal (mkResponse (JError "Failed to update todo") 500)) ∧
    (∀ e' todos w'',
       GET e' w' = (Normal (mkResponse (JTodos todos) 200), w'') →
       ∀ t, t ∈ todos → Todo_id t ≠ i).
Proof.
  intros Hid [r Hr] Hup Hfresh.
  assert (Hrun : DELETE id e w =
    (Normal (mkResponse (JSuccess true) 200),
     with_table (delete i (table w)) (with_query (QDelete (Num i)) w))).
  { by rewrite DELETE_run, Hid, Hup; cbv zeta; rewrite Hr. }
  rewrite Hrun. simpl. split; [done|]. intros cs.
  set (w' := run_calls cs _).
  assert (Hgone : table w' !! i = None).
  { apply gone_for_good; simpl.
    - apply Hfresh. by exists r.
    - apply lookup_delete_eq. }
  split; [done|]. split; [|split].
  - intros request id' e' Hid'. by apply (PATCH_missing request id' e' w' i).
  - intros id' e' Hid'. rewrite PATCH_run, Hid'. cbv zeta. simpl.
    rewrite Hgone. by destruct (store_up e').
  - intros e' todos w'' Hget t Ht Hti.
    rewrite GET_run in Hget. destruct (store_up e'); [|done].
    injection Hget as <- _.
    rewrite merge_sort_Permutation, elem_of_all_todos, Hti in Ht. congruence.
Qed.

Lemma delete_is_final_witness :
  (DELETE (lit "1") (mkEnv 60 true)
     (mkWorld {[1 := mkRow (lit "a") false 10 10]} 2 [] [])).1 =
  Normal (mkResponse (JSuccess true) 200).
Proof.
  apply (delete_is_final (lit "1") 1 (mkEnv 60 true)
           (mkWorld {[1 := mkRow (lit "a") false 10 10]} 2 [] [])).
  - reflexivity.
  - by exists (mkRow (lit "a") false 10 10).
  - reflexivity.
  - intros i [r Hr]. simpl in *.
    apply lookup_singleton_Some in Hr as [<- _]. lia.
Defined.

(** ** The client handle *)

Lemma import_prisma_NODE_ENV p : NODE_ENV (import_prisma p).2 = NODE_ENV p.
Proof.
  destruct p as [mode [g|] n [r|]]; unfold import_prisma, evaluate_module; simpl;
    try done; by case_bool_decide.
Qed.

Lemma import_prisma_one_client p :
  one_client p →
  (import_prisma p).1 = 0%nat ∧
  constructed (import_prisma p).2 = 1%nat ∧
  one_client (import_prisma p).2.
Proof.
  destruct p as [mode g n r]. unfold one_client, import_prisma, evaluate_module.
  simpl. intros [(-> & -> & ->)|(-> & Hg & Hr & Hprod & Hdev)]; simpl.
  - case_bool_decide; simpl; naive_solver.
  - destruct Hr as [->| ->]; simpl; [|naive_solver].
    destruct (decide (mode = Some "production")) as [Hm|Hm].
    + by specialize (Hprod Hm).
    + rewrite (Hdev Hm). simpl. case_bool_decide; simpl; naive_solver.
Qed.

Lemma hot_reload_one_client p :
  NODE_ENV p ≠ Some "production" → one_client p → one_client (hot_reload p).
Proof.
  destruct p as [mode g n r]. unfold one_client, hot_reload. simpl.
  intros Hm [(-> & -> & ->)|(-> & Hg & Hr & Hprod & Hdev)]; naive_solver.
Qed.

Lemma accesses_one_client evs p :
  one_client p →
  (NODE_ENV p = Some "production" → HotReload ∉ evs) →
  (∀ client, client ∈ (accesses evs p).1 → client = 0%nat) ∧
  constructed (accesses evs p).2 =
    (if bool_decide (Import ∈ evs) then 1%nat else constructed p).
Proof.
  revert p. induction evs as [|ev evs IH]; intros p Hp Hmode; simpl.
  - split; [set_solver|done].
  - destruct ev.
    + destruct (import_prisma_one_client p Hp) as (H0 & H1 & Hp').
      destruct (import_prisma p) as [prisma p'] eqn:Himp. simpl in *.
      destruct (IH p' Hp') as [Hall Hn].
      { intros Hm. assert (NODE_ENV p = Some "production") as Hm'.
        { by rewrite <- (import_prisma_NODE_ENV p), Himp. }
        specialize (Hmode Hm'). set_solver. }
      destruct (accesses evs p') as [rest p'']. simpl in *. split.
      * intros client [->|Hin]%elem_of_cons; [done|by apply Hall].
      * rewrite Hn. by case_bool_decide.
    + assert (Hm : NODE_ENV p ≠ Some "production").
      { intros Hm. specialize (Hmode Hm). set_solver. }
      destruct (IH (hot_reload p)) as [Hall Hn].
      * by apply hot_reload_one_client.
      * intros Hm'. by destruct p.
      * split; [done|]. rewrite Hn.
        destruct p; simpl. repeat case_bool_decide; set_solver.
Qed.

(** C8. In a process that starts with no client, under any [NODE_ENV],
    and in which the module is reloaded only outside production: every
    import of [prisma] obtains the same instance, the first one
    constructed, and exactly one instance is constructed once the
    handle has been imported at all. *)
Theorem prisma_is_singleton mode evs :
  (mode = Some "production" → HotReload ∉ evs) →
  (∀ client, client ∈ (accesses evs (start mode)).1 → client = 0%nat) ∧
  constructed (accesses evs (start mode)).2 =
    (if bool_decide (Import ∈ evs) then 1%nat else 0%nat).
Proof.
  intros Hmode. apply (accesses_one_client evs (start mode)); [|done].
  left. done.
Qed.

Lemma prisma_is_singleton_witness :
  (∀ client,
     client ∈ (accesses [Import; Import; Import] (start (Some "production"))).1 →
     client = 0%nat) ∧
  constructed (accesses [Import; Import; Import] (start (Some "production"))).2 =
    (if bool_decide (Import ∈ [Import; Import; Import]) then 1%nat else 0%nat).
Proof.
  apply (prisma_is_singleton (Some "production") [Import; Import; Import]).
  intros _. by apply (bool_decide_unpack _).
Defined.

(** ** Creating *)

Lemma trim_start_blank s : forallb is_white_space s = true → trim_start s = [].
Proof.
  induction s as [|c s IH]; simpl; [done|].
  intros [Hc Hs]%andb_prop. rewrite Hc. by apply IH.
Qed.

Lemma trim_blank s : forallb is_white_space s = true → trim s = [].
Proof. intros Hs. unfold trim, trim_end. by rewrite (trim_start_blank s Hs). Qed.

(** [POST] answers 400 exactly when the body was read and its [title]
    is anything but a non-empty string; the test is on the title as
    sent, before it is trimmed. *)
Lemma POST_rejects_iff request e w :
  (POST request e w).1 = Normal (mkResponse (JError "Title is required") 400) ↔
  ∃ body, request_body request = Some body ∧ body ≠ VNull ∧ body ≠ VUndefined ∧
          ∀ c s, read_property (lit "title") body ≠ VString (c :: s).
Proof.
  rewrite POST_run. cbv zeta. split.
  - intros Hrun. destruct (request_body request) as [body|]; [|done].
    exists body. split; [done|].
    destruct (read_property (lit "title") body) as [| | | |[|c s]| |] eqn:Ht;
      destruct body; try done; by repeat case_match.
  - intros (body & -> & Hnull & Hundef & Ht).
    destruct (read_property (lit "title") body) as [| | | |[|c s]| |] eqn:Ht';
      destruct body; try done. all: by destruct (Ht c s).
Qed.

(** C1, at the inputs where the code departs from it. A title that is
    not empty but consists of white space only passes the check, which
    looks at the title as sent; it is trimmed afterwards, so the record
    is created with the empty title and the response is 201. *)
Theorem blank_title_is_stored c s e w :
  forallb is_white_space (c :: s) = true →
  store_up e = true →
  table w !! autoIncrement w = None →
  (POST (title_request (VString (c :: s))) e w).1 =
    Normal (mkResponse (JTodo (mkTodo (autoIncrement w) (mkRow [] false (now e) (now e)))) 201) ∧
  table (POST (title_request (VString (c :: s))) e w).2 !! autoIncrement w =
    Some (mkRow [] false (now e) (now e)).
Proof.
  intros Hblank Hup Hfree. rewrite POST_run. cbv zeta.
  unfold title_request. cbn [request_body read_property get_property].
  rewrite bool_decide_eq_true_2 by done.
  rewrite Hup, Hfree, (trim_blank _ Hblank). cbn [fst snd table with_table].
  split; [done|]. apply lookup_insert_eq.
Qed.

Lemma blank_title_is_stored_witness :
  (POST (title_request (VString (lit "   "))) (mkEnv 10 true) empty_world).1 =
    Normal (mkResponse (JTodo (mkTodo 1 (mkRow [] false 10 10))) 201) ∧
  table (POST (title_request (VString (lit "   "))) (mkEnv 10 true) empty_world).2 !! 1 =
    Some (mkRow [] false 10 10).
Proof.
  by apply (blank_title_is_stored 32%N (lit "  ") (mkEnv 10 true) empty_world).
Defined.

(** ** Validation of the id and of [completed] *)

(** C2. [PATCH] answers 400 when the id does not parse, and when the
    [completed] read from the body is not a boolean; [DELETE] answers
    400 when the id does not parse. In each case the world is left as
    it was. *)
Theorem id_and_completed_are_validated :
  (∀ request id e w,
     parseInt id = NaN →
     PATCH request id e w = (Normal (mkResponse (JError "Invalid todo ID") 400), w)) ∧
  (∀ request id e w body completed,
     request_body request = Some body →
     destructure (lit "completed") body w = (Normal completed, w) →
     typeof completed ≠ "boolean" →
     ∃ msg, PATCH request id e w = (Normal (mkResponse (JError msg) 400), w)) ∧
  (∀ id e w,
     parseInt id = NaN →
     DELETE id e w = (Normal (mkResponse (JError "Invalid todo ID") 400), w)).
Proof.
  split_and!.
  - intros request id e w Hid. by rewrite PATCH_run, Hid.
  - intros request id e w body completed Hb Hc Hty.
    rewrite PATCH_run, Hb. cbv zeta.
    destruct (parseInt id); [by exists "Invalid todo ID"|].
    exists "Completed must be a boolean".
    destruct body; try done; injection Hc as <-; simpl in *; try done.
    by destruct (get_property _ _).
  - intros id e w Hid. by rewrite DELETE_run, Hid.
Qed.

Lemma id_and_completed_are_validated_witness :
  ∃ msg,
    PATCH (completed_request (VString (lit "true"))) (lit "1") (mkEnv 0 true) empty_world =
    (Normal (mkResponse (JError msg) 400), empty_world).
Proof.
  apply (proj1 (proj2 id_and_completed_are_validated)
           (completed_request (VString (lit "true"))) (lit "1") (mkEnv 0 true) empty_world
           (VObject [(lit "completed", VString (lit "true"))]) (VString (lit "true"))).
  - reflexivity.
  - reflexivity.
  - discriminate.
Defined.

(** ** A body that is not JSON *)

(** C9 as stated fails: a [PATCH] whose body is not JSON is answered
    400, not 500, when its id does not parse, because the id is
    checked before the body is read. *)
Lemma invalid_json_not_always_500 :
  ¬ ((∀ e w,
        (POST (mkRequest None) e w).1 =
        Normal (mkResponse (JError "Failed to create todo") 500)) ∧
     (∀ id e w,
        (PATCH (mkRequest None) id e w).1 =
        Normal (mkResponse (JError "Failed to update todo") 500))).
Proof.
  intros [_ H]. specialize (H (lit "abc") (mkEnv 0 true) empty_world).
  vm_compute in H. discriminate.
Qed.

(** C9, amended. A [POST] whose body is not JSON is answered with the
    handler's 500, and so is a [PATCH] whose id parses: the
    [SyntaxError] is caught and logged by the [catch] branch that also
    takes the store's failures, and the store is not called. A [PATCH]
    whose id does not parse is answered 400 before its body is read. *)
Theorem invalid_json_is_500 :
  (∀ e w,
     POST (mkRequest None) e w =
     (Normal (mkResponse (JError "Failed to create todo") 500),
      with_console "Error creating todo:" SyntaxError w)) ∧
  (∀ id e w,
     isNaN (parseInt id) = false →
     PATCH (mkRequest None) id e w =
     (Normal (mkResponse (JError "Failed to update todo") 500),
      with_console "Error updating todo:" SyntaxError w)) ∧
  (∀ id e w,
     isNaN (parseInt id) = true →
     PATCH (mkRequest None) id e w =
     (Normal (mkResponse (JError "Invalid todo ID") 400), w)).
Proof.
  split_and!.
  - intros e w. by rewrite POST_run.
  - intros id e w Hid. rewrite PATCH_run. by destruct (parseInt id).
  - intros id e w Hid. rewrite PATCH_run. by destruct (parseInt id).
Qed.

Lemma invalid_json_is_500_witness :
  PATCH (mkRequest None) (lit "1") (mkEnv 0 true) empty_world =
  (Normal (mkResponse (JError "Failed to update todo") 500),
   with_console "Error updating todo:" SyntaxError empty_world).
Proof.
  by apply (proj1 (proj2 invalid_json_is_500) (lit "1") (mkEnv 0 true) empty_world).
Defined.

(** ** Ids that begin with digits *)

Lemma digit_value_decimal c :
  digit_value 10 c = if is_decimal_digit c then Some (Z.of_N c - 48) else None.
Proof.
  unfold digit_value, is_decimal_digit. simpl.
  destruct (N.leb_spec 48 c), (N.leb_spec c 57),
    (Z.leb_spec 48 (Z.of_N c)), (Z.leb_spec (Z.of_N c) 57); simpl; try done; lia.
Qed.

Lemma parse_digits_decimal s seen acc :
  parse_digits 10 s seen acc =
  if seen || begins_with_digit s
  then Some (foldl (λ acc c, acc * 10 + (Z.of_N c - 48)) acc (digit_prefix s))
  else None.
Proof.
  revert seen acc. induction s as [|c s IH]; intros seen acc; simpl.
  - by destruct seen.
  - rewrite digit_value_decimal. destruct (is_decimal_digit c); simpl.
    + rewrite IH. simpl. by rewrite orb_true_r.
    + by destruct seen.
Qed.

Lemma decimal_digit_is_no_space_or_sign c :
  is_decimal_digit c = true →
  is_white_space c = false ∧ (c =? 43)%N = false ∧ (c =? 45)%N = false.
Proof.
  unfold is_decimal_digit, is_white_space.
  intros [H1%N.leb_le H2%N.leb_le]%andb_prop.
  repeat match goal with
         | |- context [(?a <=? ?b)%N] => destruct (N.leb_spec a b); try lia
         | |- context [(?a =? ?b)%N] => destruct (N.eqb_spec a b); try lia
         end.
Qed.

(** On an id that begins with a decimal digit and not with [0x] or
    [0X], [parseInt] reads the leading decimal integer. *)
Lemma parseInt_leading_integer id :
  begins_with_digit id = true → has_hex_prefix id = false →
  parseInt id = Num (leading_integer id).
Proof.
  destruct id as [|c id]; [done|]. simpl begins_with_digit. intros Hc Hhex.
  destruct (decimal_digit_is_no_space_or_sign c Hc) as (Hsp & Hplus & Hminus).
  unfold parseInt. simpl trim_start. rewrite Hsp. simpl first_is.
  rewrite Hplus, Hminus. simpl orb. cbv iota zeta. rewrite Hhex.
  rewrite parse_digits_decimal. simpl begins_with_digit. rewrite Hc. simpl orb.
  cbv iota. unfold leading_integer. f_equal. lia.
Qed.

(** The handlers use the id only through [parseInt]. *)
Lemma handlers_read_parseInt id1 id2 :
  parseInt id1 = parseInt id2 →
  (∀ request e w, PATCH request id1 e w = PATCH request id2 e w) ∧
  (∀ e w, DELETE id1 e w = DELETE id2 e w).
Proof.
  intros Hid. split; intros.
  - by rewrite !PATCH_run, Hid.
  - by rewrite !DELETE_run, Hid.
Qed.

(** C10 as stated fails: the id [0x10] begins with a digit and its
    leading integer prefix is 0, but [parseInt] reads it in base 16 and
    the handlers address the record 16. *)
Lemma hex_id_is_not_its_decimal_prefix :
  ¬ (∀ id,
       begins_with_digit id = true →
       (∀ e w,
          queries (DELETE id e w).2 =
          QDelete (Num (leading_integer id)) :: queries w) ∧
       (∀ c e w,
          queries (PATCH (completed_request (VBoolean c)) id e w).2 =
          QUpdate (Num (leading_integer id)) (VBoolean c) :: queries w)).
Proof.
  intros H. destruct (H (lit "0x10") eq_refl) as [Hdel _].
  specialize (Hdel (mkEnv 0 true) empty_world).
  vm_compute in Hdel. discriminate.
Qed.

(** C10, amended. [PATCH] and [DELETE] answer 400 "Invalid todo ID"
    exactly when [parseInt] of the id is [NaN]. For an id that begins
    with a decimal digit and not with [0x] or [0X], and whose leading
    decimal integer is a safe integer (so that the double [parseInt]
    returns is that integer), [parseInt] is the leading decimal
    integer, whatever follows it; the handlers call the store on that
    id, and, the store answering and holding the record, that record is
    the one deleted or updated. *)
Theorem id_is_read_by_parseInt :
  (∀ request id e w,
     (PATCH request id e w).1 = Normal (mkResponse (JError "Invalid todo ID") 400)
     ↔ parseInt id = NaN) ∧
  (∀ id e w,
     (DELETE id e w).1 = Normal (mkResponse (JError "Invalid todo ID") 400)
     ↔ parseInt id = NaN) ∧
  (∀ id,
     begins_with_digit id = true →
     has_hex_prefix id = false →
     is_safe_integer (leading_integer id) →
     parseInt id = Num (leading_integer id) ∧
     (∀ e w,
        queries (DELETE id e w).2 =
        QDelete (Num (leading_integer id)) :: queries w) ∧
     (∀ c e w,
        queries (PATCH (completed_request (VBoolean c)) id e w).2 =
        QUpdate (Num (leading_integer id)) (VBoolean c) :: queries w) ∧
     (∀ e w r,
        store_up e = true →
        table w !! leading_integer id = Some r →
        table (DELETE id e w).2 = delete (leading_integer id) (table w)) ∧
     (∀ c e w r,
        store_up e = true →
        table w !! leading_integer id = Some r →
        table (PATCH (completed_request (VBoolean c)) id e w).2 =
        <[leading_integer id := mkRow (title r) c (createdAt r) (now e)]> (table w))).
Proof.
  split_and!.
  - intros request id e w. rewrite PATCH_run. cbv zeta.
    destruct (parseInt id); [done|]. split; [|done].
    by repeat case_match.
  - intros id e w. rewrite DELETE_run. cbv zeta.
    destruct (parseInt id); [done|]. split; [|done].
    by repeat case_match.
  - intros id Hdigit Hhex _.
    pose proof (parseInt_leading_integer id Hdigit Hhex) as Hid.
    split_and!; [done|..].
    + intros e w. rewrite DELETE_run, Hid. cbv zeta. by repeat case_match.
    + intros c e w. rewrite PATCH_run, Hid. cbv zeta.
      unfold completed_request. simpl. by repeat case_match.
    + intros e w r Hup Hr. by rewrite DELETE_run, Hid, Hup; cbv zeta; rewrite Hr.
    + intros c e w r Hup Hr. rewrite PATCH_run, Hid. cbv zeta.
      unfold completed_request. simpl. by rewrite Hup, Hr.
Qed.

Lemma id_is_read_by_parseInt_witness :
  parseInt (lit "5abc") = Num (leading_integer (lit "5abc")).
Proof.
  apply (proj2 (proj2 id_is_read_by_parseInt) (lit "5abc")); [done..|].
  unfold is_safe_integer. change (leading_integer (lit "5abc")) with 5. lia.
Defined.

(** ** Worked examples *)

Example parseInt_5abc : parseInt (lit "5abc") = Num 5.
Proof. reflexivity. Qed.

Example parseInt_5_9 : parseInt (lit "5.9") = Num 5.
Proof. reflexivity. Qed.

Example parseInt_signed : parseInt (lit "  -42px") = Num (-42).
Proof. reflexivity. Qed.

Example parseInt_abc : parseInt (lit "abc") = NaN.
Proof. reflexivity. Qed.

Example parseInt_empty : parseInt [] = NaN.
Proof. reflexivity. Qed.

Example parseInt_hex : parseInt (lit "0x1F") = Num 31.
Proof. reflexivity. Qed.

(** [0x] with no hexadecimal digit after it: the id begins with a digit
    and is rejected all the same. *)
Example DELETE_0x :
  DELETE (lit "0x") (mkEnv 0 true) empty_world =
  (Normal (mkResponse (JError "Invalid todo ID") 400), empty_world).
Proof. reflexivity. Qed.

Example trim_a : trim (lit "  a  ") = lit "a".
Proof. reflexivity. Qed.

Example POST_empty_title :
  POST (title_request (VString [])) (mkEnv 10 true) empty_world =
  (Normal (mkResponse (JError "Title is required") 400), empty_world).
Proof. reflexivity. Qed.

Example POST_padded_title :
  (POST (title_request (VString (lit "  a  "))) (mkEnv 10 true) empty_world).1 =
  Normal (mkResponse (JTodo (mkTodo 1 (mkRow (lit "a") false 10 10))) 201).
Proof. reflexivity. Qed.

Example PATCH_string_completed :
  PATCH (completed_request (VString (lit "true"))) (lit "1") (mkEnv 10 true) empty_world =
  (Normal (mkResponse (JError "Completed must be a boolean") 400), empty_world).
Proof. reflexivity. Qed.

(** A [null] body is not a validation failure: destructuring throws
    and the handler's [catch] answers 500. *)
Example PATCH_null_body :
  (PATCH (mkRequest (Some VNull)) (lit "1") (mkEnv 10 true) empty_world).1 =
  Normal (mkResponse (JError "Failed to update todo") 500).
Proof. reflexivity. Qed.

(** In production a reload would construct a second client: the guard
    on [NODE_ENV] is what makes the handle survive reloads elsewhere. *)
Example reload_in_production :
  (accesses [Import; HotReload; Import] (start (Some "production"))).1 = [0; 1]%nat.
Proof. reflexivity. Qed.

Example reload_in_development :
  (accesses [Import; HotReload; Import] (start (Some "development"))).1 = [0; 0]%nat.
Proof. reflexivity. Qed.

(** The end-to-end scenario: create "Buy milk", complete it, list,
    delete, list. *)
Example end_to_end :
  let buy_milk := lit "Buy milk" in
  let w1 := (POST (title_request (VString buy_milk)) (mkEnv 100 true) empty_world).2 in
  let w2 := (PATCH (completed_request (VBoolean true)) (lit "1") (mkEnv 200 true) w1).2 in
  let w3 := (GET (mkEnv 300 true) w2).2 in
  let w4 := (DELETE (lit "1") (mkEnv 400 true) w3).2 in
  (POST (title_request (VString buy_milk)) (mkEnv 100 true) empty_world).1 =
    Normal (mkResponse (JTodo (mkTodo 1 (mkRow buy_milk false 100 100))) 201) ∧
  (PATCH (completed_request (VBoolean true)) (lit "1") (mkEnv 200 true) w1).1 =
    Normal (mkResponse (JTodo (mkTodo 1 (mkRow buy_milk true 100 200))) 200) ∧
  (GET (mkEnv 300 true) w2).1 =
    Normal (mkResponse (JTodos [mkTodo 1 (mkRow buy_milk true 100 200)]) 200) ∧
  (DELETE (lit "1") (mkEnv 400 true) w3).1 =
    Normal (mkResponse (JSuccess true) 200) ∧
  (GET (mkEnv 500 true) w4).1 = Normal (mkResponse (JTodos []) 200).
Proof. vm_compute. done. Qed.

(** * Further properties of the handlers *)

(** ** What [trim] leaves *)

Lemma trim_start_split s :
  ∃ ws, s = ws ++ trim_start s ∧ forallb is_white_space ws = true.
Proof.
  induction s as [|c s (ws & Hs & Hws)]; simpl; [by exists []|].
  destruct (is_white_space c) eqn:Hc.
  - exists (c :: ws). simpl. rewrite Hc, Hws. split; [by f_equal|done].
  - by exists [].
Qed.

Lemma head_trim_start s c :
  head (trim_start s) = Some c → is_white_space c = false.
Proof.
  induction s as [|c' s IH]; simpl; [done|].
  destruct (is_white_space c') eqn:Hc; [done|]. simpl. by intros [= <-].
Qed.

Lemma trim_end_split s :
  ∃ ws, s = trim_end s ++ ws ∧ forallb is_white_space ws = true.
Proof.
  unfold trim_end. destruct (trim_start_split (reverse s)) as (ws & Hs & Hws).
  exists (reverse ws). split.
  - rewrite <- reverse_app, <- Hs. by rewrite reverse_involutive.
  - apply (proj2 (forallb_forall _ _)). intros c Hc.
    apply (proj1 (forallb_forall _ _) Hws).
    apply list_elem_of_In. apply list_elem_of_In in Hc.
    by apply elem_of_reverse.
Qed.

Lemma last_trim_end s c :
  last (trim_end s) = Some c → is_white_space c = false.
Proof.
  unfold trim_end. rewrite last_reverse. apply head_trim_start.
Qed.

(** [trim s] is [s] without a run of white space at each end, and has
    no white space at either end itself. *)
Lemma trim_split s :
  ∃ ws1 ws2,
    s = ws1 ++ trim s ++ ws2 ∧
    forallb is_white_space ws1 = true ∧ forallb is_white_space ws2 = true ∧
    no_outer_space (trim s).
Proof.
  destruct (trim_start_split s) as (ws1 & Hs & Hws1).
  destruct (trim_end_split (trim_start s)) as (ws2 & Hx & Hws2).
  exists ws1, ws2. unfold trim, no_outer_space. split_and!; try done.
  - by rewrite <- Hx.
  - intros c Hc. apply (head_trim_start s).
    rewrite Hx. destruct (trim_end (trim_start s)); [done|]. by simpl in *.
  - apply last_trim_end.
Qed.

(** ** Creating, then listing *)

(** X1. The record a successful [POST] returns carries the title that
    was sent, less a run of white space at each end: the title sent is
    the stored title between two runs of white space, and the stored
    title neither begins nor ends with white space. The record is not
    completed and its two timestamps are the same. *)
Theorem created_title_is_stripped request e w todo st w' :
  POST request e w = (Normal (mkResponse (JTodo todo) st), w') →
  ∃ body sent ws1 ws2,
    request_body request = Some body ∧
    read_property (lit "title") body = VString sent ∧
    sent = ws1 ++ title (columns todo) ++ ws2 ∧
    forallb is_white_space ws1 = true ∧
    forallb is_white_space ws2 = true ∧
    no_outer_space (title (columns todo)) ∧
    completed (columns todo) = false ∧
    createdAt (columns todo) = updatedAt (columns todo).
Proof.
  intros (body & s & Hb & Ht & _ & _ & -> & _)%POST_created.
  destruct (trim_split s) as (ws1 & ws2 & Hs & H1 & H2 & Hout).
  exists body, s, ws1, ws2. by simpl.
Qed.

Lemma created_title_is_stripped_witness :
  ∃ body sent ws1 ws2,
    request_body (title_request (VString (lit "  a  "))) = Some body ∧
    read_property (lit "title") body = VString sent ∧
    sent = ws1 ++ title (columns (mkTodo 1 (mkRow (lit "a") false 10 10))) ++ ws2 ∧
    forallb is_white_space ws1 = true ∧
    forallb is_white_space ws2 = true ∧
    no_outer_space (title (columns (mkTodo 1 (mkRow (lit "a") false 10 10)))) ∧
    completed (columns (mkTodo 1 (mkRow (lit "a") false 10 10))) = false ∧
    createdAt (columns (mkTodo 1 (mkRow (lit "a") false 10 10))) =
    updatedAt (columns (mkTodo 1 (mkRow (lit "a") false 10 10))).
Proof.
  eapply (created_title_is_stripped (title_request (VString (lit "  a  ")))
            (mkEnv 10 true) empty_world).
  vm_compute. reflexivity.
Defined.

Lemma NoDup_all_todos_ids (t : gmap Z row) : NoDup (Todo_id <$> all_todos t).
Proof.
  unfold all_todos. rewrite <- list_fmap_compose.
  apply (NoDup_fst_map_to_list t).
Qed.

Lemma length_all_todos (t : gmap Z row) : length (all_todos t) = size t.
Proof. unfold all_todos. by rewrite length_fmap, length_map_to_list. Qed.

Lemma elem_of_findMany (tb : gmap Z row) (t : Todo) :
  t ∈ merge_sort createdAt_desc (all_todos tb) ↔ tb !! Todo_id t = Some (columns t).
Proof. by rewrite merge_sort_Permutation, elem_of_all_todos. Qed.

Lemma length_findMany (tb : gmap Z row) :
  length (merge_sort createdAt_desc (all_todos tb)) = size tb.
Proof. rewrite merge_sort_Permutation. apply length_all_todos. Qed.

(** X2. Whatever list [GET] returns, it shows the table as it is: a
    record is in the list exactly when the table holds it under its
    id, no two records of the list have the same id, and the list is
    as long as the table is large. *)
Theorem list_shows_the_table e w l st w' :
  GET e w = (Normal (mkResponse (JTodos l) st), w') →
  (∀ t, t ∈ l ↔ table w !! Todo_id t = Some (columns t)) ∧
  NoDup (Todo_id <$> l) ∧
  length l = size (table w) ∧
  table w' = table w.
Proof.
  rewrite GET_run. destruct (store_up e); [|done]. intros [= <- _ <-].
  pose proof (merge_sort_Permutation createdAt_desc (all_todos (table w))) as Hp.
  split_and!.
  - intros t. by rewrite Hp, elem_of_all_todos.
  - rewrite Hp. apply NoDup_all_todos_ids.
  - rewrite Hp. apply length_all_todos.
  - done.
Qed.

Lemma list_shows_the_table_witness :
  (∀ t, t ∈ [mkTodo 1 (mkRow (lit "a") false 10 10)] ↔
        table (mkWorld {[1 := mkRow (lit "a") false 10 10]} 2 [] []) !! Todo_id t
        = Some (columns t)) ∧
  NoDup (Todo_id <$> [mkTodo 1 (mkRow (lit "a") false 10 10)]) ∧
  length [mkTodo 1 (mkRow (lit "a") false 10 10)] =
    size (table (mkWorld {[1 := mkRow (lit "a") false 10 10]} 2 [] [])) ∧
  table (with_query QFindMany (mkWorld {[1 := mkRow (lit "a") false 10 10]} 2 [] []))
  = table (mkWorld {[1 := mkRow (lit "a") false 10 10]} 2 [] []).
Proof.
  apply (list_shows_the_table (mkEnv 20 true)
           (mkWorld {[1 := mkRow (lit "a") false 10 10]} 2 [] []) _ 200).
  vm_compute. reflexivity.
Defined.

(** X3. A record just created is in the next list, once: after a
    successful [POST], a [GET] that the store answers returns a list
    that holds the new record, holds no other record under its id,
    still holds every record the table had, and is one longer than the
    table was large. *)
Theorem create_then_list request e w todo st w' e' :
  POST request e w = (Normal (mkResponse (JTodo todo) st), w') →
  store_up e' = true →
  ∃ l,
    (GET e' w').1 = Normal (mkResponse (JTodos l) 200) ∧
    todo ∈ l ∧
    (∀ t, t ∈ l → Todo_id t = Todo_id todo → t = todo) ∧
    (∀ t, table w !! Todo_id t = Some (columns t) → t ∈ l) ∧
    length l = S (size (table w)).
Proof.
  intros (body & s & _ & _ & _ & _ & Htodo & Hfree & Ht & _)%POST_created Hup.
  subst todo. simpl in Ht.
  rewrite GET_run, Hup. simpl. eexists. split; [done|].
  rewrite length_findMany, Ht. split_and!.
  - apply elem_of_findMany. apply lookup_insert_eq.
  - intros [i r] Hl Hi. apply elem_of_findMany in Hl. simpl in *. subst i.
    rewrite lookup_insert_eq in Hl. congruence.
  - intros t Hold. apply elem_of_findMany.
    rewrite lookup_insert_ne; [done|]. congruence.
  - by apply map_size_insert_None.
Qed.

Lemma create_then_list_witness :
  ∃ l,
    (GET (mkEnv 20 true)
       (POST (title_request (VString (lit "a"))) (mkEnv 10 true) empty_world).2).1
    = Normal (mkResponse (JTodos l) 200) ∧
    mkTodo 1 (mkRow (lit "a") false 10 10) ∈ l ∧
    (∀ t, t ∈ l → Todo_id t = Todo_id (mkTodo 1 (mkRow (lit "a") false 10 10)) →
          t = mkTodo 1 (mkRow (lit "a") false 10 10)) ∧
    (∀ t, table empty_world !! Todo_id t = Some (columns t) → t ∈ l) ∧
    length l = S (size (table empty_world)).
Proof.
  apply (create_then_list (title_request (VString (lit "a"))) (mkEnv 10 true)
           empty_world (mkTodo 1 (mkRow (lit "a") false 10 10)) 201).
  - vm_compute. reflexivity.
  - reflexivity.
Defined.

(** ** Failures *)

(** X4. With the store answering, a call that is answered 500 has
    changed no record: the table after it is the table before it. (The
    500 then comes from a body that cannot be read, an id that names no
    record, or a key that is taken, all of which are met before
    anything is written.) *)
Theorem server_error_keeps_table c e w resp w' :
  store_up e = true →
  handle c e w = (Normal resp, w') →
  status resp = 500 →
  table w' = table w.
Proof.
  intros Hup Hrun Hst. run_handle c; repeat case_match; by simplify_eq/=.
Qed.

Lemma server_error_keeps_table_witness :
  table (with_console "Error updating todo:" TypeError
           (mkWorld {[1 := mkRow (lit "a") false 10 10]} 2 [] []))
  = table (mkWorld {[1 := mkRow (lit "a") false 10 10]} 2 [] []).
Proof.
  apply (server_error_keeps_table (CallPATCH (mkRequest (Some VNull)) (lit "1"))
           (mkEnv 50 true) (mkWorld {[1 := mkRow (lit "a") false 10 10]} 2 [] [])
           (mkResponse (JError "Failed to update todo") 500)).
  - reflexivity.
  - vm_compute. reflexivity.
  - reflexivity.
Defined.

(** X5. An id that parses but names no record is not a validation
    error: [DELETE] and a well-formed [PATCH] on it are answered with
    the handler's 500, the failure of the store is logged, and the
    table is as it was. In particular a second [DELETE] of the same
    record is answered 500. *)
Theorem unknown_id_is_500 id i e w :
  parseInt id = Num i →
  table w !! i = None →
  store_up e = true →
  (DELETE id e w).1 = Normal (mkResponse (JError "Failed to delete todo") 500) ∧
  console (DELETE id e w).2 =
    ("Error deleting todo:", PrismaClientError "P2025") :: console w ∧
  table (DELETE id e w).2 = table w ∧
  (∀ c,
     (PATCH (completed_request (VBoolean c)) id e w).1 =
       Normal (mkResponse (JError "Failed to update todo") 500) ∧
     console (PATCH (completed_request (VBoolean c)) id e w).2 =
       ("Error updating todo:", PrismaClientError "P2025") :: console w ∧
     table (PATCH (completed_request (VBoolean c)) id e w).2 = table w) ∧
  (∀ e', store_up e' = true →
     (DELETE id e' (DELETE id e w).2).1 =
       Normal (mkResponse (JError "Failed to delete todo") 500)).
Proof.
  intros Hid Hi Hup.
  assert (Hdel : ∀ e0 w0, store_up e0 = true → table w0 !! i = None →
    DELETE id e0 w0 =
    (Normal (mkResponse (JError "Failed to delete todo") 500),
     with_console "Error deleting todo:" (PrismaClientError "P2025")
       (with_query (QDelete (Num i)) w0))).
  { intros e0 w0 H0 Hw0. by rewrite DELETE_run, Hid, H0; cbv zeta; rewrite Hw0. }
  rewrite (Hdel e w Hup Hi). simpl. split_and!; try done.
  - intros c. rewrite PATCH_run, Hid. cbv zeta. unfold completed_request. simpl.
    by rewrite Hup, Hi.
  - intros e' Hup'. by rewrite Hdel.
Qed.

Lemma unknown_id_is_500_witness :
  (DELETE (lit "7") (mkEnv 0 true) empty_world).1 =
  Normal (mkResponse (JError "Failed to delete todo") 500).
Proof.
  exact (proj1 (unknown_id_is_500 (lit "7") 7 (mkEnv 0 true) empty_world
                  eq_refl eq_refl eq_refl)).
Defined.

(** ** Updating twice *)

(** X6. Setting [completed] to the same value twice is the same as
    setting it once at the later time: the second [PATCH] is answered
    200 with the flag as supplied, and the table after both is the
    table before with that record carrying the flag and the second
    clock reading as [updatedAt]. *)
Theorem set_completed_twice id i r c e1 e2 w :
  parseInt id = Num i →
  table w !! i = Some r →
  store_up e1 = true →
  store_up e2 = true →
  let request := completed_request (VBoolean c) in
  let w1 := (PATCH request id e1 w).2 in
  let r2 := mkRow (title r) c (createdAt r) (now e2) in
  (PATCH request id e2 w1).1 = Normal (mkResponse (JTodo (mkTodo i r2)) 200) ∧
  table (PATCH request id e2 w1).2 = <[i := r2]> (table w) ∧
  table (PATCH request id e2 w1).2 = table (PATCH request id e2 w).2.
Proof.
  intros Hid Hi Hup1 Hup2 request w1 r2.
  assert (Hrun : ∀ e0 w0 r0, store_up e0 = true → table w0 !! i = Some r0 →
    PATCH request id e0 w0 =
    (Normal (mkResponse (JTodo (mkTodo i (mkRow (title r0) c (createdAt r0) (now e0)))) 200),
     with_table (<[i := mkRow (title r0) c (createdAt r0) (now e0)]> (table w0))
       (with_query (QUpdate (Num i) (VBoolean c)) w0))).
  { intros e0 w0 r0 H0 Hw0. rewrite PATCH_run, Hid. cbv zeta.
    unfold request, completed_request. simpl. by rewrite H0, Hw0. }
  subst w1. rewrite (Hrun e1 w r Hup1 Hi). simpl.
  rewrite (Hrun e2 _ (mkRow (title r) c (createdAt r) (now e1)) Hup2)
    by (simpl; apply lookup_insert_eq).
  rewrite (Hrun e2 w r Hup2 Hi). simpl. split_and!; try done.
  all: by rewrite insert_insert_eq.
Qed.

Lemma set_completed_twice_witness :
  (PATCH (completed_request (VBoolean true)) (lit "1") (mkEnv 60 true)
     (PATCH (completed_request (VBoolean true)) (lit "1") (mkEnv 50 true)
        (mkWorld {[1 := mkRow (lit "a") false 10 10]} 2 [] [])).2).1 =
  Normal (mkResponse (JTodo (mkTodo 1 (mkRow (lit "a") true 10 60))) 200).
Proof.
  by apply (set_completed_twice (lit "1") 1 (mkRow (lit "a") false 10 10) true
              (mkEnv 50 true) (mkEnv 60 true)
              (mkWorld {[1 := mkRow (lit "a") false 10 10]} 2 [] [])).
Defined.

(** ** Ids *)

Lemma autoIncrement_handle c e w :
  autoIncrement w ≤ autoIncrement (handle c e w).2.
Proof. run_handle c; repeat case_match; simpl; lia. Qed.

Lemma autoIncrement_run cs w : autoIncrement w ≤ autoIncrement (run_calls cs w).
Proof.
  revert w. induction cs as [|[c e] cs IH]; intros w; simpl; [done|].
  pose proof (autoIncrement_handle c e w). pose proof (IH (handle c e w).2). lia.
Qed.

(** X7. Ids are handed out in increasing order and never again: of two
    successful [POST]s, whatever calls come between them (deletions
    included), the later one returns the larger id. *)
Theorem ids_never_reused request1 request2 e1 e2 w todo1 todo2 st1 st2 w1 cs w3 :
  POST request1 e1 w = (Normal (mkResponse (JTodo todo1) st1), w1) →
  POST request2 e2 (run_calls cs w1) = (Normal (mkResponse (JTodo todo2) st2), w3) →
  Todo_id todo1 < Todo_id todo2.
Proof.
  intros (b1 & s1 & _ & _ & _ & _ & -> & _ & _ & Hn1)%POST_created.
  intros (b2 & s2 & _ & _ & _ & _ & -> & _ & _ & _)%POST_created. simpl.
  pose proof (autoIncrement_run cs w1). lia.
Qed.

Lemma ids_never_reused_witness :
  Todo_id (mkTodo 1 (mkRow (lit "a") false 10 10)) <
  Todo_id (mkTodo 2 (mkRow (lit "b") false 30 30)).
Proof.
  eapply (ids_never_reused (title_request (VString (lit "a")))
            (title_request (VString (lit "b"))) (mkEnv 10 true) (mkEnv 30 true)
            empty_world _ _ 201 201 _
            [(CallDELETE (lit "1"), mkEnv 20 true)]).
  - vm_compute. reflexivity.
  - vm_compute. reflexivity.
Defined.

(** ** Timestamps *)

(** X8. As long as the clock a call reads is not behind the timestamps
    already stored, every record keeps [createdAt ≤ updatedAt], and no
    timestamp is ahead of that clock reading. *)
Theorem timestamps_kept c e w t :
  timestamps_ok t (table w) →
  t ≤ now e →
  timestamps_ok (now e) (table (handle c e w).2).
Proof.
  unfold timestamps_ok. intros Hw Ht.
  assert (Hold : ∀ i r, table w !! i = Some r →
            createdAt r ≤ updatedAt r ∧ updatedAt r ≤ now e).
  { intros i r Hr. destruct (Hw i r Hr). lia. }
  run_handle c; repeat case_match; simplify_eq/=; intros j rj;
    rewrite ?lookup_insert, ?lookup_delete; try case_decide;
    try (intros [= <-]; simpl); try done; try (by apply Hold);
    try lia.
  match goal with H : table w !! _ = Some _ |- _ => apply Hold in H end. lia.
Qed.

Lemma timestamps_kept_witness :
  timestamps_ok (now (mkEnv 50 true))
    (table (handle (CallPATCH (completed_request (VBoolean true)) (lit "1"))
              (mkEnv 50 true)
              (mkWorld {[1 := mkRow (lit "a") false 10 10]} 2 [] [])).2).
Proof.
  apply (timestamps_kept _ _ _ 10).
  - intros i r Hr. simpl in Hr. apply lookup_singleton_Some in Hr as [_ <-].
    simpl. lia.
  - simpl. lia.
Defined.

(** * The page and the handlers together *)

(** ** The id in the URL *)

Lemma lit_app s1 s2 : lit (s1 +:+ s2) = lit s1 ++ lit s2.
Proof. induction s1 as [|a s1 IH]; simpl; [done|]. by rewrite IH. Qed.

Lemma lit_pretty_N_go x s :
  lit (pretty_N_go x s) = lit (pretty_N_go x "") ++ lit s.
Proof.
  revert s. induction (N.lt_wf_0 x) as [x _ IH]; intros s.
  destruct (decide (x = 0%N)) as [->|Hx]; [done|].
  rewrite !(pretty_N_go_step x) by lia.
  rewrite (IH (x `div` 10)%N) by (apply N.div_lt; lia).
  rewrite (IH (x `div` 10)%N ltac:(apply N.div_lt; lia) (String _ "")).
  simpl. by rewrite <- app_assoc.
Qed.

Lemma pretty_N_char_code d :
  (d < 10)%N → Ascii.N_of_ascii (pretty_N_char d) = (48 + d)%N.
Proof.
  intros Hd.
  assert (d = 0 ∨ d = 1 ∨ d = 2 ∨ d = 3 ∨ d = 4 ∨ d = 5 ∨ d = 6 ∨ d = 7
          ∨ d = 8 ∨ d = 9)%N as Hcases by lia.
  repeat (destruct Hcases as [->|Hcases]; [done|]). by subst.
Qed.

(** The numeral of a positive number: decimal digits only, and their
    value is the number. *)
Lemma pretty_N_go_digits x :
  forallb is_decimal_digit (lit (pretty_N_go x "")) = true ∧
  foldl (λ acc c, acc * 10 + (Z.of_N c - 48)) 0 (lit (pretty_N_go x "")) = Z.of_N x.
Proof.
  induction (N.lt_wf_0 x) as [x _ IH].
  destruct (decide (x = 0%N)) as [->|Hx]; [done|].
  rewrite pretty_N_go_step, lit_pretty_N_go by lia.
  destruct (IH (x `div` 10)%N) as [Hall Hval]; [apply N.div_lt; lia|].
  assert (Hd : (x `mod` 10 < 10)%N) by (apply N.mod_lt; lia).
  pose proof (N.div_mod x 10 ltac:(lia)) as Hx10.
  simpl lit. rewrite pretty_N_char_code by done.
  generalize dependent (x `mod` 10)%N. intros d Hd Hx10. split.
  - rewrite forallb_app, Hall. simpl. unfold is_decimal_digit.
    destruct (N.leb_spec 48 (48 + d)), (N.leb_spec (48 + d) 57);
      simpl; try done; lia.
  - rewrite foldl_app, Hval. simpl. lia.
Qed.

Lemma digit_prefix_all l :
  forallb is_decimal_digit l = true → digit_prefix l = l.
Proof.
  induction l as [|c l IH]; simpl; [done|].
  intros [Hc Hl]%andb_prop. rewrite Hc. by rewrite IH.
Qed.

Lemma digits_have_no_hex_prefix l :
  forallb is_decimal_digit l = true → has_hex_prefix l = false.
Proof.
  destruct l as [|c0 [|c1 l]]; simpl; try done.
  intros [_ [H1 _]%andb_prop]%andb_prop. unfold is_decimal_digit in H1.
  apply andb_prop in H1 as [Hlo%N.leb_le Hhi%N.leb_le].
  destruct (N.eqb_spec c1 120), (N.eqb_spec c1 88); lia.
Qed.

(** The numeral of a number, as a JavaScript string: decimal digits,
    at least one, worth the number. *)
Lemma numeral_digits (x : N) :
  lit (pretty x) ≠ [] ∧
  forallb is_decimal_digit (lit (pretty x)) = true ∧
  foldl (λ acc c, acc * 10 + (Z.of_N c - 48)) 0 (lit (pretty x)) = Z.of_N x.
Proof.
  unfold pretty, pretty_N. case_decide as Hx; [by subst|].
  destruct (pretty_N_go_digits x) as [Hall Hval]. split_and!; try done.
  intros Hnil. rewrite Hnil in Hval. simpl in Hval. lia.
Qed.

(** [parseInt] reads back the numeral of an integer. *)
Lemma parseInt_numeral (i : Z) : parseInt (lit (pretty i)) = Num i.
Proof.
  destruct i as [|p|p]; [done|..].
  - change (pretty (Z.pos p)) with (pretty (N.pos p)).
    destruct (numeral_digits (N.pos p)) as (Hne & Hall & Hval).
    rewrite parseInt_leading_integer.
    + unfold leading_integer. rewrite digit_prefix_all by done.
      by rewrite Hval.
    + destruct (lit (pretty (N.pos p))) as [|c l]; [done|].
      simpl in *. by apply andb_prop in Hall as [-> _].
    + by apply digits_have_no_hex_prefix.
  - change (pretty (Z.neg p)) with ("-" +:+ pretty (N.pos p)).
    rewrite lit_app.
    destruct (numeral_digits (N.pos p)) as (Hne & Hall & Hval).
    change (lit "-") with [45%N]. unfold parseInt.
    change (trim_start ([45%N] ++ lit (pretty (N.pos p))))
      with ([45%N] ++ lit (pretty (N.pos p))).
    change (first_is 45 ([45%N] ++ lit (pretty (N.pos p)))) with true.
    rewrite orb_true_r. cbv zeta iota.
    change (drop 1 ([45%N] ++ lit (pretty (N.pos p)))) with (lit (pretty (N.pos p))).
    rewrite (digits_have_no_hex_prefix _ Hall).
    rewrite parse_digits_decimal.
    assert (begins_with_digit (lit (pretty (N.pos p))) = true) as ->.
    { destruct (lit (pretty (N.pos p))) as [|c l]; [done|].
      simpl in *. by apply andb_prop in Hall as [-> _]. }
    simpl orb. cbv iota. rewrite digit_prefix_all by done. rewrite Hval.
    f_equal.
Qed.

(** X9. The id survives the trip through the URL: [parseInt] of the
    decimal numeral the page writes for an integer id is that id, so
    the id is never rejected as invalid, and the call [PATCH] or
    [DELETE] issues on the store names that very id. *)
Theorem id_survives_the_url i :
  is_safe_integer i →
  parseInt (Number_toString i) = Num i ∧
  (∀ e w,
     queries (DELETE (Number_toString i) e w).2 = QDelete (Num i) :: queries w) ∧
  (∀ c e w,
     queries (PATCH (completed_request (VBoolean c)) (Number_toString i) e w).2 =
     QUpdate (Num i) (VBoolean c) :: queries w).
Proof.
  intros _. pose proof (parseInt_numeral i) as Hid.
  fold (Number_toString i) in Hid. split_and!; [done|..].
  - intros e w. rewrite DELETE_run, Hid. cbv zeta. by repeat case_match.
  - intros c e w. rewrite PATCH_run, Hid. cbv zeta.
    unfold completed_request. simpl. by repeat case_match.
Qed.

Lemma id_survives_the_url_witness : parseInt (Number_toString 42) = Num 42.
Proof.
  apply (id_survives_the_url 42). unfold is_safe_integer. lia.
Defined.

(** ** Running the page *)

Lemma fetchTodos_run n p w :
  fetchTodos n p w =
  if online n then
    if store_up (server n) then
      (setTodos (merge_sort createdAt_desc (all_todos (table w))) p,
       with_query QFindMany w)
    else
      (p, with_console "Error fetching todos:" (PrismaClientError "P1001")
            (with_query QFindMany w))
  else (browser_error "Failed to fetch todos:" p, w).
Proof.
  unfold fetchTodos, fetch. simpl handle. rewrite GET_run.
  destruct (online n); [|done]. by destruct (store_up (server n)).
Qed.

Lemma fetch_run n c w :
  fetch n c w =
  if online n then
    match handle c (server n) w with
    | (Normal res, w') => (Some res, w')
    | (Throw _, w') => (Some (mkResponse (JError "Internal Server Error") 500), w')
    end
  else (None, w).
Proof. done. Qed.

(** The guard of [addTodo] lets a title through exactly when something
    is left of it after trimming. *)
Lemma addTodo_guard s :
  negb (ToBoolean (VString (trim s))) = false ↔ trim s ≠ [].
Proof. simpl. by destruct (trim s). Qed.

(** ** Titles *)

Lemma POST_title_keeps_proper s e w :
  trim s ≠ [] →
  proper_titles (table w) →
  proper_titles (table (POST (title_request (VString s)) e w).2).
Proof.
  intros Hs Hw. rewrite POST_run. cbv zeta. unfold title_request.
  cbn [request_body read_property get_property].
  rewrite bool_decide_eq_true_2 by done.
  destruct s as [|c s]; [done|].
  destruct (store_up e); [|done].
  destruct (table w !! autoIncrement w) eqn:Hfree; [done|].
  intros j rj. cbn [snd table with_table]. rewrite lookup_insert.
  case_decide; [|by apply Hw]. intros [= <-]. simpl. split; [done|].
  by destruct (trim_split (c :: s)) as (? & ? & _ & _ & _ & ?).
Qed.

Lemma PATCH_keeps_proper request id e w :
  proper_titles (table w) → proper_titles (table (PATCH request id e w).2).
Proof.
  intros Hw. rewrite PATCH_run. cbv zeta.
  repeat case_match; simplify_eq/=; try done.
  intros j rj. rewrite lookup_insert. case_decide; [|by apply Hw].
  intros [= <-]. simpl. subst. by eapply Hw.
Qed.

Lemma DELETE_keeps_proper id e w :
  proper_titles (table w) → proper_titles (table (DELETE id e w).2).
Proof.
  intros Hw. rewrite DELETE_run. cbv zeta.
  repeat case_match; simplify_eq/=; try done.
  intros j rj. rewrite lookup_delete. case_decide; [done|by apply Hw].
Qed.

Lemma fetch_keeps_proper n c w :
  proper_titles (table w) →
  proper_titles (table (handle c (server n) w).2) →
  proper_titles (table (fetch n c w).2).
Proof.
  intros Hw Hc. unfold fetch. destruct (online n); [|done].
  by destruct (handle c (server n) w) as [[res|err] w'].
Qed.

Lemma fetchTodos_table n p w :
  table (fetchTodos n p w).2 = table w.
Proof.
  rewrite fetchTodos_run. destruct (online n); [|done].
  by destruct (store_up (server n)).
Qed.

Lemma act_keeps_proper a n1 n2 p w :
  proper_titles (table w) → proper_titles (table (act a n1 n2 p w).2).
Proof.
  intros Hw. destruct a as [|value| |k|k]; simpl.
  - by rewrite fetchTodos_table.
  - done.
  - unfold addTodo.
    destruct (negb (ToBoolean (VString (trim (newTodo p))))) eqn:Hguard; [done|].
    apply addTodo_guard in Hguard.
    pose proof (fetch_keeps_proper n1
      (CallPOST (title_request (VString (newTodo p)))) w Hw
      (POST_title_keeps_proper _ _ _ Hguard Hw)) as Hpost.
    simpl newTodo.
    destruct (fetch n1 _ w) as [[res|] w']; simpl in *; [|done].
    destruct (ok res); [|done].
    destruct (fetchTodos n2 _ w') as [p' w''] eqn:Hf. simpl.
    replace w'' with (fetchTodos n2 (setNewTodo [] (setLoading true p)) w').2
      by (by rewrite Hf).
    by rewrite fetchTodos_table.
  - destruct (todos p !! k) as [todo|]; [|done]. unfold toggleTodo.
    pose proof (fetch_keeps_proper n1
      (CallPATCH (completed_request (VBoolean (negb (completed (columns todo)))))
         (Number_toString (Todo_id todo))) w Hw
      (PATCH_keeps_proper _ _ _ _ Hw)) as Hpatch.
    destruct (fetch n1 _ w) as [[res|] w']; simpl in *; [|done].
    destruct (ok res); [|done]. by rewrite fetchTodos_table.
  - destruct (todos p !! k) as [todo|]; [|done]. unfold deleteTodo.
    pose proof (fetch_keeps_proper n1
      (CallDELETE (Number_toString (Todo_id todo))) w Hw
      (DELETE_keeps_proper _ _ _ Hw)) as Hdel.
    destruct (fetch n1 _ w) as [[res|] w']; simpl in *; [|done].
    destruct (ok res); [|done].
    destruct (fetchTodos n2 _ w') as [p' w''] eqn:Hf. simpl.
    replace w'' with (fetchTodos n2 (setDeletingId (Some (Todo_id todo)) p) w').2
      by (by rewrite Hf).
    by rewrite fetchTodos_table.
Qed.

(** X10. Used through the page, the store never gets a blank title:
    if every title in the table is non-empty and free of white space
    at both ends, it is still so after any sequence of actions on the
    page, whatever the network and the store do. *)
Theorem page_keeps_titles_proper acts p w :
  proper_titles (table w) →
  proper_titles (table (use_page acts p w).2).
Proof.
  revert p w. induction acts as [|[[a n1] n2] acts IH]; intros p w Hw; simpl; [done|].
  pose proof (act_keeps_proper a n1 n2 p w Hw) as Hact.
  destruct (act a n1 n2 p w) as [p' w']. by apply IH.
Qed.

Lemma page_keeps_titles_proper_witness :
  proper_titles
    (table (use_page
              [(Typing (lit "   "), mkNetwork true (mkEnv 10 true), mkNetwork true (mkEnv 10 true));
               (Submit, mkNetwork true (mkEnv 20 true), mkNetwork true (mkEnv 21 true))]
              initial_Home empty_world).2).
Proof.
  apply (page_keeps_titles_proper _ initial_Home empty_world).
  intros i r Hr. vm_compute in Hr. discriminate.
Defined.

(** ** Adding *)

(** X11. Submitting an input that is empty or all white space does
    nothing at all: no request is sent, and the page and the store are
    as they were. *)
Theorem addTodo_ignores_blank n1 n2 p w :
  forallb is_white_space (newTodo p) = true →
  addTodo n1 n2 p w = (p, w).
Proof.
  intros Hblank. unfold addTodo. by rewrite (trim_blank _ Hblank).
Qed.

Lemma addTodo_ignores_blank_witness :
  addTodo (mkNetwork true (mkEnv 10 true)) (mkNetwork true (mkEnv 11 true))
    (setNewTodo (lit "   ") initial_Home) empty_world =
  (setNewTodo (lit "   ") initial_Home, empty_world).
Proof.
  by apply (addTodo_ignores_blank _ _ (setNewTodo (lit "   ") initial_Home)).
Defined.

(** X12. Submitting a title of which something is left after trimming,
    with the network up, the store answering and the next id free:
    the record is stored under the next id with the trimmed title, not
    completed; the input is cleared, the page is no longer loading, and
    with the second request getting through as well the page shows the
    list of the new table, newest first. *)
Theorem addTodo_adds n1 n2 p w :
  trim (newTodo p) ≠ [] →
  online n1 = true → store_up (server n1) = true →
  table w !! autoIncrement w = None →
  online n2 = true → store_up (server n2) = true →
  let r := mkRow (trim (newTodo p)) false (now (server n1)) (now (server n1)) in
  let p' := (addTodo n1 n2 p w).1 in
  let w' := (addTodo n1 n2 p w).2 in
  table w' = <[autoIncrement w := r]> (table w) ∧
  newTodo p' = [] ∧
  loading p' = false ∧
  todos p' = merge_sort createdAt_desc (all_todos (table w')) ∧
  mkTodo (autoIncrement w) r ∈ todos p'.
Proof.
  intros Hs Hon1 Hup1 Hfree Hon2 Hup2 r p' w'.
  assert (Hrun : addTodo n1 n2 p w =
    (setLoading false
       (setTodos (merge_sort createdAt_desc (all_todos (<[autoIncrement w := r]> (table w))))
          (setNewTodo [] (setLoading true p))),
     with_query QFindMany
       (with_table (<[autoIncrement w := r]> (table w))
          (with_autoIncrement (autoIncrement w + 1)
             (with_query (QCreate (VString (trim (newTodo p)))) w))))).
  { unfold addTodo. rewrite (proj2 (addTodo_guard _) Hs).
    rewrite fetch_run, Hon1. simpl handle. rewrite POST_run. cbv zeta.
    unfold title_request. cbn [request_body read_property get_property].
    rewrite bool_decide_eq_true_2 by done. simpl newTodo.
    destruct (newTodo p) as [|c s] eqn:Hnew; [done|].
    rewrite Hup1, Hfree. cbn [ok status]. simpl andb. cbv iota.
    rewrite fetchTodos_run, Hon2, Hup2. done. }
  subst p' w'. rewrite Hrun. simpl. split_and!; try done.
  apply elem_of_findMany. simpl. apply lookup_insert_eq.
Qed.

Lemma addTodo_adds_witness :
  table (addTodo (mkNetwork true (mkEnv 10 true)) (mkNetwork true (mkEnv 11 true))
           (setNewTodo (lit "  a  ") initial_Home) empty_world).2 =
  <[1 := mkRow (lit "a") false 10 10]> (table empty_world).
Proof.
  apply (addTodo_adds (mkNetwork true (mkEnv 10 true)) (mkNetwork true (mkEnv 11 true))
           (setNewTodo (lit "  a  ") initial_Home) empty_world);
    try reflexivity.
  vm_compute. discriminate.
Defined.

(** X13. When the [POST] does not go through (the request is lost, or
    the store does not answer), what the user typed is still in the
    input, the list on the page and the table are as they were, and
    the page is no longer loading. *)
Theorem addTodo_failure_keeps_input n1 n2 p w :
  online n1 = false ∨ store_up (server n1) = false →
  let p' := (addTodo n1 n2 p w).1 in
  let w' := (addTodo n1 n2 p w).2 in
  newTodo p' = newTodo p ∧
  todos p' = todos p ∧
  (trim (newTodo p) ≠ [] → loading p' = false) ∧
  table w' = table w.
Proof.
  intros Hfail p' w'. subst p' w'. unfold addTodo.
  destruct (negb (ToBoolean (VString (trim (newTodo p))))) eqn:Hguard.
  { simpl. split_and!; try done. intros Hs%addTodo_guard. congruence. }
  rewrite fetch_run. destruct (online n1) eqn:Hon; [|done].
  destruct Hfail as [?|Hup]; [done|].
  simpl handle. rewrite POST_run. cbv zeta.
  unfold title_request. cbn [request_body read_property get_property].
  rewrite bool_decide_eq_true_2 by done. simpl newTodo.
  destruct (newTodo p) as [|c s] eqn:Hnew; [done|]. by rewrite Hup.
Qed.

Lemma addTodo_failure_keeps_input_witness :
  newTodo (addTodo (mkNetwork false (mkEnv 10 true)) (mkNetwork true (mkEnv 11 true))
             (setNewTodo (lit "a") initial_Home) empty_world).1 =
  newTodo (setNewTodo (lit "a") initial_Home).
Proof.
  apply (addTodo_failure_keeps_input (mkNetwork false (mkEnv 10 true))
           (mkNetwork true (mkEnv 11 true)) (setNewTodo (lit "a") initial_Home)
           empty_world).
  by left.
Defined.

(** ** Ticking and removing a row *)

(** X14. Ticking the checkbox of a row, the request getting through
    and the store holding the record: the stored flag becomes the
    negation of the flag the page shows in that row (which flips the
    stored flag when the page is up to date), [updatedAt] becomes the
    current time, and nothing else in the table changes; with the
    second request getting through as well, the page then shows the
    list of the new table. *)
Theorem tick_negates_what_is_shown k todo r n1 n2 p w :
  todos p !! k = Some todo →
  is_safe_integer (Todo_id todo) →
  table w !! Todo_id todo = Some r →
  online n1 = true → store_up (server n1) = true →
  let r' := mkRow (title r) (negb (completed (columns todo))) (createdAt r)
              (now (server n1)) in
  let p' := (act (Tick k) n1 n2 p w).1 in
  let w' := (act (Tick k) n1 n2 p w).2 in
  table w' = <[Todo_id todo := r']> (table w) ∧
  (completed (columns todo) = completed r → completed r' = negb (completed r)) ∧
  (online n2 = true → store_up (server n2) = true →
   todos p' = merge_sort createdAt_desc (all_todos (table w')) ∧
   mkTodo (Todo_id todo) r' ∈ todos p').
Proof.
  intros Hk _ Hr Hon1 Hup1 r' p' w'. subst p' w'. simpl act. rewrite Hk.
  unfold toggleTodo. rewrite fetch_run, Hon1. simpl handle.
  rewrite PATCH_run. unfold Number_toString. rewrite parseInt_numeral.
  cbv zeta. unfold completed_request. simpl. rewrite Hup1, Hr.
  cbn [ok status]. simpl andb. cbv iota.
  rewrite fetchTodos_run. split_and!.
  - destruct (online n2); [|done]. by destruct (store_up (server n2)).
  - by intros ->.
  - intros -> ->. simpl. split; [done|].
    apply elem_of_findMany. simpl. apply lookup_insert_eq.
Qed.

Lemma tick_negates_what_is_shown_witness :
  table (act (Tick 0) (mkNetwork true (mkEnv 50 true)) (mkNetwork true (mkEnv 51 true))
           (setTodos [mkTodo 1 (mkRow (lit "a") false 10 10)] initial_Home)
           (mkWorld {[1 := mkRow (lit "a") false 10 10]} 2 [] [])).2 =
  <[1 := mkRow (lit "a") true 10 50]>
    (table (mkWorld {[1 := mkRow (lit "a") false 10 10]} 2 [] [])).
Proof.
  apply (tick_negates_what_is_shown 0 (mkTodo 1 (mkRow (lit "a") false 10 10))
           (mkRow (lit "a") false 10 10)
           (mkNetwork true (mkEnv 50 true)) (mkNetwork true (mkEnv 51 true))
           (setTodos [mkTodo 1 (mkRow (lit "a") false 10 10)] initial_Home)
           (mkWorld {[1 := mkRow (lit "a") false 10 10]} 2 [] []));
    try reflexivity.
  unfold is_safe_integer. simpl. lia.
Defined.

(** X15. Pressing the delete button of a row, the request getting
    through and the store holding the record: the record is removed
    from the table and nothing else changes there; the row is no
    longer marked as being deleted afterwards, and with the second
    request getting through as well the page shows the list of the new
    table, in which no row has that id. *)
Theorem remove_deletes_the_row k todo r n1 n2 p w :
  todos p !! k = Some todo →
  is_safe_integer (Todo_id todo) →
  table w !! Todo_id todo = Some r →
  online n1 = true → store_up (server n1) = true →
  let p' := (act (Remove k) n1 n2 p w).1 in
  let w' := (act (Remove k) n1 n2 p w).2 in
  table w' = delete (Todo_id todo) (table w) ∧
  deletingId p' = None ∧
  (online n2 = true → store_up (server n2) = true →
   todos p' = merge_sort createdAt_desc (all_todos (table w')) ∧
   ∀ t, t ∈ todos p' → Todo_id t ≠ Todo_id todo).
Proof.
  intros Hk _ Hr Hon1 Hup1 p' w'. subst p' w'. simpl act. rewrite Hk.
  unfold deleteTodo. rewrite fetch_run, Hon1. simpl handle.
  rewrite DELETE_run. unfold Number_toString. rewrite parseInt_numeral.
  cbv zeta. rewrite Hup1, Hr. cbn [ok status]. simpl andb. cbv iota.
  rewrite fetchTodos_run.
  destruct (online n2); [|done]. destruct (store_up (server n2)); [|done].
  simpl. split_and!; try done. intros _ _. split; [done|].
  intros t Ht%elem_of_findMany Heq. rewrite Heq in Ht.
  by rewrite lookup_delete_eq in Ht.
Qed.

Lemma remove_deletes_the_row_witness :
  table (act (Remove 0) (mkNetwork true (mkEnv 50 true)) (mkNetwork true (mkEnv 51 true))
           (setTodos [mkTodo 1 (mkRow (lit "a") false 10 10)] initial_Home)
           (mkWorld {[1 := mkRow (lit "a") false 10 10]} 2 [] [])).2 =
  delete 1 (table (mkWorld {[1 := mkRow (lit "a") false 10 10]} 2 [] [])).
Proof.
  apply (remove_deletes_the_row 0 (mkTodo 1 (mkRow (lit "a") false 10 10))
           (mkRow (lit "a") false 10 10)
           (mkNetwork true (mkEnv 50 true)) (mkNetwork true (mkEnv 51 true))
           (setTodos [mkTodo 1 (mkRow (lit "a") false 10 10)] initial_Home)
           (mkWorld {[1 := mkRow (lit "a") false 10 10]} 2 [] []));
    try reflexivity.
  unfold is_safe_integer. simpl. lia.
Defined.

(** ** What the page shows *)

(** The list on the page after an action is the list it had, or a list
    [GET] made from some table. *)
Lemma fetchTodos_page n p w :
  loading (fetchTodos n p w).1 = loading p ∧
  deletingId (fetchTodos n p w).1 = deletingId p ∧
  newTodo (fetchTodos n p w).1 = newTodo p ∧
  (todos (fetchTodos n p w).1 = todos p ∨
   ∃ tb, todos (fetchTodos n p w).1 = merge_sort createdAt_desc (all_todos tb)).
Proof.
  rewrite fetchTodos_run. destruct (online n); [|by auto].
  destruct (store_up (server n)); simpl; eauto 10.
Qed.

Lemma act_page a n1 n2 p w :
  (loading p = false → loading (act a n1 n2 p w).1 = false) ∧
  (deletingId p = None → deletingId (act a n1 n2 p w).1 = None) ∧
  (todos (act a n1 n2 p w).1 = todos p ∨
   ∃ tb, todos (act a n1 n2 p w).1 = merge_sort createdAt_desc (all_todos tb)).
Proof.
  destruct a as [|value| |k|k]; simpl.
  - destruct (fetchTodos_page n1 p w) as (-> & -> & _ & Ht). by auto.
  - by auto.
  - unfold addTodo. destruct (negb _); [by auto|].
    destruct (fetch n1 _ w) as [[res|] w']; simpl; [|by auto].
    destruct (ok res); simpl; [|by auto].
    destruct (fetchTodos_page n2 (setNewTodo [] (setLoading true p)) w')
      as (_ & Hd & _ & Ht).
    destruct (fetchTodos n2 _ w') as [p' w'']. simpl in *.
    split_and!; [done|by rewrite Hd|done].
  - destruct (todos p !! k) as [todo|]; [|by auto]. unfold toggleTodo.
    destruct (fetch n1 _ w) as [[res|] w']; simpl; [|by auto].
    destruct (ok res); simpl; [|by auto].
    destruct (fetchTodos_page n2 p w') as (-> & -> & _ & Ht). by auto.
  - destruct (todos p !! k) as [todo|]; [|by auto]. unfold deleteTodo.
    destruct (fetch n1 _ w) as [[res|] w']; simpl; [|by auto].
    destruct (ok res); simpl; [|by auto].
    destruct (fetchTodos_page n2 (setDeletingId (Some (Todo_id todo)) p) w')
      as (Hl & _ & _ & Ht).
    destruct (fetchTodos n2 _ w') as [p' w'']. simpl in *.
    split_and!; [by rewrite Hl|done|done].
Qed.

(** X16. Between actions the page is at rest: if it is not loading and
    marks no row as being deleted, then after any sequence of actions,
    whatever fails on the way, it is again not loading and marks no
    row as being deleted (the submit button and the delete buttons are
    not left disabled). *)
Theorem page_comes_to_rest acts p w :
  loading p = false →
  deletingId p = None →
  loading (use_page acts p w).1 = false ∧
  deletingId (use_page acts p w).1 = None.
Proof.
  revert p w. induction acts as [|[[a n1] n2] acts IH]; intros p w Hl Hd; simpl; [done|].
  destruct (act_page a n1 n2 p w) as (Hl' & Hd' & _).
  destruct (act a n1 n2 p w) as [p' w']. apply IH; by auto.
Qed.

Lemma page_comes_to_rest_witness :
  loading (use_page
             [(Typing (lit "a"), mkNetwork true (mkEnv 10 true), mkNetwork true (mkEnv 10 true));
              (Submit, mkNetwork true (mkEnv 20 false), mkNetwork false (mkEnv 21 true))]
             initial_Home empty_world).1 = false ∧
  deletingId (use_page
                [(Typing (lit "a"), mkNetwork true (mkEnv 10 true), mkNetwork true (mkEnv 10 true));
                 (Submit, mkNetwork true (mkEnv 20 false), mkNetwork false (mkEnv 21 true))]
                initial_Home empty_world).1 = None.
Proof.
  by apply (page_comes_to_rest _ initial_Home empty_world).
Defined.

(** X17. The rows of the page always have distinct ids (the keys the
    rows are rendered under) and are in newest-first order: if the
    list on the page is so, it is so after any sequence of actions. *)
Theorem page_rows_are_keyed_and_sorted acts p w :
  NoDup (Todo_id <$> todos p) →
  StronglySorted createdAt_desc (todos p) →
  NoDup (Todo_id <$> todos (use_page acts p w).1) ∧
  StronglySorted createdAt_desc (todos (use_page acts p w).1).
Proof.
  revert p w. induction acts as [|[[a n1] n2] acts IH]; intros p w Hk Hs; simpl; [done|].
  destruct (act_page a n1 n2 p w) as (_ & _ & Ht).
  destruct (act a n1 n2 p w) as [p' w']. simpl in Ht. apply IH.
  - destruct Ht as [->|[tb ->]]; [done|].
    rewrite merge_sort_Permutation. apply NoDup_all_todos_ids.
  - destruct Ht as [->|[tb ->]]; [done|].
    apply StronglySorted_merge_sort; apply _.
Qed.

Lemma page_rows_are_keyed_and_sorted_witness :
  NoDup (Todo_id <$> todos (use_page
           [(Mount, mkNetwork true (mkEnv 30 true), mkNetwork true (mkEnv 30 true));
            (Tick 1, mkNetwork true (mkEnv 40 true), mkNetwork true (mkEnv 41 true))]
           (setTodos [mkTodo 1 (mkRow (lit "a") false 10 10)] initial_Home)
           (mkWorld {[1 := mkRow (lit "a") false 10 10;
                      2 := mkRow (lit "b") false 20 20]} 3 [] [])).1) ∧
  StronglySorted createdAt_desc (todos (use_page
           [(Mount, mkNetwork true (mkEnv 30 true), mkNetwork true (mkEnv 30 true));
            (Tick 1, mkNetwork true (mkEnv 40 true), mkNetwork true (mkEnv 41 true))]
           (setTodos [mkTodo 1 (mkRow (lit "a") false 10 10)] initial_Home)
           (mkWorld {[1 := mkRow (lit "a") false 10 10;
                      2 := mkRow (lit "b") false 20 20]} 3 [] [])).1).
Proof.
  apply (page_rows_are_keyed_and_sorted _
           (setTodos [mkTodo 1 (mkRow (lit "a") false 10 10)] initial_Home)).
  - simpl. apply NoDup_singleton.
  - simpl. apply SSorted_cons; [apply SSorted_nil|apply Forall_nil_2].
Defined.

(** The run of the witness above ends on a page of two rows, the
    record created later first. *)
Example two_rows_on_the_page :
  todos (use_page
           [(Mount, mkNetwork true (mkEnv 30 true), mkNetwork true (mkEnv 30 true));
            (Tick 1, mkNetwork true (mkEnv 40 true), mkNetwork true (mkEnv 41 true))]
           (setTodos [mkTodo 1 (mkRow (lit "a") false 10 10)] initial_Home)
           (mkWorld {[1 := mkRow (lit "a") false 10 10;
                      2 := mkRow (lit "b") false 20 20]} 3 [] [])).1 =
  [mkTodo 2 (mkRow (lit "b") false 20 20); mkTodo 1 (mkRow (lit "a") true 10 40)].
Proof. vm_compute. reflexivity. Qed.

(** ** The counter under the list *)

Lemma all_todos_insert (tb : gmap Z row) i r :
  all_todos (<[i := r]> tb) ≡ₚ mkTodo i r :: all_todos (delete i tb).
Proof.
  unfold all_todos. rewrite <- insert_delete_eq.
  rewrite map_to_list_insert by apply lookup_delete_eq. done.
Qed.

Lemma all_todos_lookup (tb : gmap Z row) i r :
  tb !! i = Some r →
  all_todos tb ≡ₚ mkTodo i r :: all_todos (delete i tb).
Proof.
  intros Hr. rewrite <- (insert_id tb i r Hr) at 1. apply all_todos_insert.
Qed.

Lemma completed_count_cons t l :
  completed_count (t :: l) =
  ((if completed (columns t) then 1 else 0) + completed_count l)%nat.
Proof.
  unfold completed_count. rewrite filter_cons.
  destruct (completed (columns t)); by case_decide.
Qed.

Lemma completed_count_perm l1 l2 :
  l1 ≡ₚ l2 → completed_count l1 = completed_count l2.
Proof. unfold completed_count. by intros ->. Qed.

(** X18. With the page up to date and both requests getting through,
    ticking a row moves the count of completed Todos shown under the
    list by exactly one: up when the row was not completed, down when
    it was. The number of rows stays the same. *)
Theorem tick_moves_the_counter k todo n1 n2 p w :
  todos p !! k = Some todo →
  todos p ≡ₚ all_todos (table w) →
  is_safe_integer (Todo_id todo) →
  online n1 = true → store_up (server n1) = true →
  online n2 = true → store_up (server n2) = true →
  let p' := (act (Tick k) n1 n2 p w).1 in
  length (todos p') = length (todos p) ∧
  (if completed (columns todo)
   then S (completed_count (todos p')) = completed_count (todos p)
   else completed_count (todos p') = S (completed_count (todos p))).
Proof.
  intros Hk Hp _ Hon1 Hup1 Hon2 Hup2 p'.
  assert (Hr : table w !! Todo_id todo = Some (columns todo)).
  { apply elem_of_all_todos. rewrite <- Hp. by eapply list_elem_of_lookup_2. }
  subst p'. simpl act. rewrite Hk.
  unfold toggleTodo. rewrite fetch_run, Hon1. simpl handle.
  rewrite PATCH_run. unfold Number_toString. rewrite parseInt_numeral.
  cbv zeta. unfold completed_request. simpl. rewrite Hup1, Hr.
  cbn [ok status]. simpl andb. cbv iota.
  rewrite fetchTodos_run, Hon2, Hup2. simpl.
  set (r' := mkRow _ _ _ _).
  rewrite (completed_count_perm _ _ (merge_sort_Permutation _ _)).
  rewrite (completed_count_perm _ _ (all_todos_insert _ _ _)).
  rewrite (completed_count_perm _ _ Hp).
  rewrite (completed_count_perm _ _ (all_todos_lookup _ _ _ Hr)).
  rewrite !completed_count_cons. split.
  - rewrite merge_sort_Permutation, all_todos_insert, Hp.
    by rewrite (all_todos_lookup _ _ _ Hr).
  - subst r'. simpl. by destruct (completed (columns todo)).
Qed.

Lemma tick_moves_the_counter_witness :
  length (todos (act (Tick 0) (mkNetwork true (mkEnv 50 true))
                   (mkNetwork true (mkEnv 51 true))
                   (setTodos [mkTodo 1 (mkRow (lit "a") false 10 10)] initial_Home)
                   (mkWorld {[1 := mkRow (lit "a") false 10 10]} 2 [] [])).1) =
  length (todos (setTodos [mkTodo 1 (mkRow (lit "a") false 10 10)] initial_Home)).
Proof.
  apply (tick_moves_the_counter 0 (mkTodo 1 (mkRow (lit "a") false 10 10))
           (mkNetwork true (mkEnv 50 true)) (mkNetwork true (mkEnv 51 true))
           (setTodos [mkTodo 1 (mkRow (lit "a") false 10 10)] initial_Home)
           (mkWorld {[1 := mkRow (lit "a") false 10 10]} 2 [] []));
    try reflexivity.
  unfold is_safe_integer. simpl. lia.
Defined.
